(** * kelly: stake allocation across two mutually exclusive options

    A shallow embedding of the calculation core of [codehakase/kelly]:
    package [types] (the data model), package [calculator] (the three
    allocation strategies), package [parser] (odds normalisation) and
    package [validator] (input validation), followed by the properties
    of that core.

    Numbers.  Go's [float64] is IEEE-754 binary64, represented by
    [spec_float] at precision 53 and maximal exponent 1024: every
    arithmetic operator rounds its exact result to the nearest
    representable value (ties to the even mantissa), a division by zero
    gives an infinity or NaN, and a comparison with NaN is false.  The
    values computed below are therefore the values the program computes,
    bit for bit.

    Errors.  A Go [error] is modelled by its message, [nil] by [None]; a
    function returning a value and an error returns the pair.

    Library code.  [strings], [math] and [fmt] are modelled on what the
    program calls; [strconv.ParseFloat] is a parameter of the parser, and a
    reader of plain decimal literals instantiates it on concrete text. *)

From Stdlib Require Import ZArith QArith Qpower Qabs Lia Lqa.
From Stdlib Require Import Bool List String Ascii DecimalString.
From Stdlib Require Import Floats.SpecFloat.
Import ListNotations.

(** ** float64 and package math *)

Definition float64 := spec_float.

Definition prec : Z := 53.
Definition emax : Z := 1024.

(** The arithmetic operators of the language on [float64]. *)
Definition fadd : float64 -> float64 -> float64 := SFadd prec emax.
Definition fsub : float64 -> float64 -> float64 := SFsub prec emax.
Definition fmul : float64 -> float64 -> float64 := SFmul prec emax.
Definition fdiv : float64 -> float64 -> float64 := SFdiv prec emax.
Definition fneg : float64 -> float64 := SFopp.

(** Its comparison operators [<=], [<] and [==]; [x > y] is [y < x],
    [x >= y] is [y <= x] and [x != y] is the negation of [x == y]. *)
Definition fle : float64 -> float64 -> bool := SFleb.
Definition flt : float64 -> float64 -> bool := SFltb.
Definition feq : float64 -> float64 -> bool := SFeqb.

(** The value nearest to the rational [n/d]. *)
Definition of_ratio (n : Z) (d : positive) : float64 :=
  match n with
  | Z0 => S754_zero false
  | Zpos p => fdiv (S754_finite false p 0) (S754_finite false d 0)
  | Zneg p => fdiv (S754_finite true p 0) (S754_finite false d 0)
  end.

(** A decimal constant of the source denotes the value nearest to it. *)
Definition of_decimal (d : Decimal.decimal) : float64 :=
  let '(i, f, e) :=
    match d with
    | Decimal.Decimal i f => (i, f, 0%Z)
    | Decimal.DecimalExp i f e => (i, f, Z.of_int e)
    end in
  let num := Z.of_int (Decimal.app_int i f) in
  match (e - Z.of_nat (Decimal.nb_digits f))%Z with
  | Zneg k => of_ratio num (10 ^ k)
  | k => of_ratio (num * 10 ^ k) 1
  end.

Definition of_number (n : Number.number) : option spec_float :=
  match n with
  | Number.Decimal d => Some (of_decimal d)
  | Number.Hexadecimal _ => None
  end.

Definition to_number (x : spec_float) : option Number.number := None.

Declare Scope float64_scope.
Delimit Scope float64_scope with float64.
Bind Scope float64_scope with float64 spec_float.
Number Notation spec_float of_number to_number : float64_scope.

Notation "x + y" := (fadd x y) : float64_scope.
Notation "x - y" := (fsub x y) : float64_scope.
Notation "x * y" := (fmul x y) : float64_scope.
Notation "x / y" := (fdiv x y) : float64_scope.
Notation "- x" := (fneg x) : float64_scope.

Arguments fadd : simpl never.
Arguments fsub : simpl never.
Arguments fmul : simpl never.
Arguments fdiv : simpl never.
Arguments fle : simpl never.
Arguments flt : simpl never.
Arguments feq : simpl never.

Local Open Scope float64_scope.

Module math.

Definition NaN : float64 := S754_nan.

Definition Inf (sign : Z) : float64 := S754_infinity (sign <? 0)%Z.

Definition IsNaN (f : float64) : bool :=
  match f with
  | S754_nan => true
  | _ => false
  end.

Definition IsInf (f : float64) (sign : Z) : bool :=
  match f with
  | S754_infinity s => if s then (sign <=? 0)%Z else (0 <=? sign)%Z
  | _ => false
  end.

(** The sign bit; it is read on zeros only, and a NaN carries none in
    this representation. *)
Definition Signbit (x : float64) : bool :=
  match x with
  | S754_zero s | S754_infinity s | S754_finite s _ _ => s
  | S754_nan => false
  end.

(** [math.Round]: the nearest integer, halves away from zero; zeros,
    infinities and NaN are returned as they are.  A finite [x] is
    [m * 2^e]; with [e < 0] it has [-e] fractional bits, and the integer
    is the mantissa plus one half, cut at the binary point. *)
Definition Round (x : float64) : float64 :=
  match x with
  | S754_finite s m e =>
      if (0 <=? e)%Z then x
      else
        match Z.shiftr (Zpos m + Z.shiftl 1 (- e - 1)) (- e) with
        | Zpos n => binary_round prec emax s n 0
        | _ => S754_zero s
        end
  | _ => x
  end.

(** [math.Pow] at an integral exponent, the only use the program makes:
    square and multiply.  The two powers of ten the program asks for are
    computed without any rounding. *)
Definition Pow (x : float64) (y : Z) : float64 :=
  match y with
  | Z0 => 1
  | Zpos p => Pos.iter_op fmul p x
  | Zneg p => 1 / Pos.iter_op fmul p x
  end.

Definition Max (x y : float64) : float64 :=
  if IsInf x 1 || IsInf y 1 then Inf 1
  else if IsNaN x || IsNaN y then NaN
  else if feq x 0 && feq x y then (if Signbit x then y else x)
  else if flt y x then x
  else y.

Definition Min (x y : float64) : float64 :=
  if IsInf x (-1) || IsInf y (-1) then Inf (-1)
  else if IsNaN x || IsNaN y then NaN
  else if feq x 0 && feq x y then (if Signbit x then x else y)
  else if flt x y then x
  else y.

Definition Abs (x : float64) : float64 := SFabs x.

End math.

(** ** package types *)

Module types.

Definition CalculationMethod := string.

Definition MethodArbitrage : CalculationMethod := "arbitrage"%string.
Definition MethodKelly : CalculationMethod := "kelly"%string.
Definition MethodProportional : CalculationMethod := "proportional"%string.

Record Option := mkOption {
  Name : string;
  Odds : float64;
  ImpliedProbability : float64;
  Probability : float64;
  Stake : float64;
  ReturnIfWins : float64;
  ProfitIfWins : float64;
  ROI : float64
}.

Record Summary := mkSummary {
  GuaranteedProfit : bool;
  MinProfit : float64;
  MaxProfit : float64;
  ExpectedValue : float64;
  MinROI : float64;
  MaxROI : float64;
  MarketEfficiency : float64
}.

(** The result record.  Its fields [Method], [TotalStake], [Currency] and
    [Summary] carry an [r] prefix here, the plain names being taken by
    the input record and by the [Summary] type. *)
Record CalculationResult := mkCalculationResult {
  rMethod : CalculationMethod;
  rTotalStake : float64;
  rCurrency : string;
  OptionA : Option;
  OptionB : Option;
  rSummary : Summary
}.

Record CalculationInput := mkCalculationInput {
  Method : CalculationMethod;
  OddsA : float64;
  OddsB : float64;
  TotalStake : float64;
  ProbA : float64;
  ProbB : float64;
  NameA : string;
  NameB : string;
  Currency : string
}.

End types.

(** ** package calculator *)

Module calculator.
Import types.

(** A Go [error] is observed through its message. *)
Definition error := string.

(** The pair of a result pointer and an error that a [Calculate]
    returns; [None] is [nil] on either side. *)
Definition outcome : Type := (option CalculationResult * option error)%type.

Definition round (val : float64) (decimals : Z) : float64 :=
  let multiplier := math.Pow 10 decimals in
  math.Round (val * multiplier) / multiplier.

Definition impliedProbability (odds : float64) : float64 :=
  if fle odds 0 then 0 else 1 / odds.

Definition marketEfficiency (oddsA oddsB : float64) : float64 :=
  impliedProbability oddsA + impliedProbability oddsB.

(** The three implementations of the [Calculator] interface. *)
Inductive Calculator := ArbitrageCalculator | KellyCalculator | ProportionalCalculator.

Definition NewCalculator (method : CalculationMethod) : Calculator :=
  if String.eqb method MethodKelly then KellyCalculator
  else if String.eqb method MethodProportional then ProportionalCalculator
  else ArbitrageCalculator.

(** A field the source leaves out of a struct literal has Go's zero
    value: [Probability] is [0] outside the Kelly strategy. *)
Definition ArbitrageCalculator_Calculate (input : CalculationInput) : outcome :=
  let denominator := OddsA input + OddsB input - 2 in
  let stakeA := round (TotalStake input * (OddsB input - 1) / denominator) 2 in
  let stakeB := round (TotalStake input * (OddsA input - 1) / denominator) 2 in
  let returnA := stakeA * OddsA input in
  let returnB := stakeB * OddsB input in
  let profitA := returnA - TotalStake input in
  let profitB := returnB - TotalStake input in
  let marketEff := marketEfficiency (OddsA input) (OddsB input) in
  (Some {|
     rMethod := MethodArbitrage;
     rTotalStake := TotalStake input;
     rCurrency := Currency input;
     OptionA := {|
       Name := NameA input;
       Odds := OddsA input;
       ImpliedProbability := impliedProbability (OddsA input);
       Probability := 0;
       Stake := stakeA;
       ReturnIfWins := round returnA 2;
       ProfitIfWins := round profitA 2;
       ROI := round (profitA / TotalStake input) 4 |};
     OptionB := {|
       Name := NameB input;
       Odds := OddsB input;
       ImpliedProbability := impliedProbability (OddsB input);
       Probability := 0;
       Stake := stakeB;
       ReturnIfWins := round returnB 2;
       ProfitIfWins := round profitB 2;
       ROI := round (profitB / TotalStake input) 4 |};
     rSummary := {|
       GuaranteedProfit := flt marketEff 1;
       MinProfit := round (math.Min profitA profitB) 2;
       MaxProfit := round (math.Max profitA profitB) 2;
       ExpectedValue := round ((profitA + profitB) / 2) 2;
       MinROI := round (math.Min profitA profitB / TotalStake input) 4;
       MaxROI := round (math.Max profitA profitB / TotalStake input) 4;
       MarketEfficiency := round marketEff 4 |} |},
   None).

Definition KellyCalculator_Calculate (input : CalculationInput) : outcome :=
  if feq (ProbA input) 0 || feq (ProbB input) 0 then
    (None, Some "kelly method requires probability estimates for both options"%string)
  else
  let kellyA := math.Max 0 ((ProbA input * OddsA input - 1) / (OddsA input - 1)) in
  let kellyB := math.Max 0 ((ProbB input * OddsB input - 1) / (OddsB input - 1)) in
  let rawStakeA := TotalStake input * kellyA in
  let rawStakeB := TotalStake input * kellyB in
  let totalRaw := rawStakeA + rawStakeB in
  let '(stakeA, stakeB) :=
    if flt (TotalStake input) totalRaw then
      let scale := TotalStake input / totalRaw in
      (round (rawStakeA * scale) 2, round (rawStakeB * scale) 2)
    else
      (round rawStakeA 2, round rawStakeB 2) in
  let returnA := stakeA * OddsA input in
  let returnB := stakeB * OddsB input in
  let profitA := returnA - TotalStake input in
  let profitB := returnB - TotalStake input in
  let expectedValue := (ProbA input * profitA) + (ProbB input * profitB) in
  let expectedValue :=
    let probSum := ProbA input + ProbB input in
    if flt probSum 1 then expectedValue + (1 - probSum) * (- TotalStake input)
    else expectedValue in
  let marketEff := marketEfficiency (OddsA input) (OddsB input) in
  (Some {|
     rMethod := MethodKelly;
     rTotalStake := TotalStake input;
     rCurrency := Currency input;
     OptionA := {|
       Name := NameA input;
       Odds := OddsA input;
       ImpliedProbability := impliedProbability (OddsA input);
       Probability := ProbA input;
       Stake := stakeA;
       ReturnIfWins := round returnA 2;
       ProfitIfWins := round profitA 2;
       ROI := round (profitA / TotalStake input) 4 |};
     OptionB := {|
       Name := NameB input;
       Odds := OddsB input;
       ImpliedProbability := impliedProbability (OddsB input);
       Probability := ProbB input;
       Stake := stakeB;
       ReturnIfWins := round returnB 2;
       ProfitIfWins := round profitB 2;
       ROI := round (profitB / TotalStake input) 4 |};
     rSummary := {|
       GuaranteedProfit := flt marketEff 1;
       MinProfit := round (math.Min profitA profitB) 2;
       MaxProfit := round (math.Max profitA profitB) 2;
       ExpectedValue := round expectedValue 2;
       MinROI := round (math.Min profitA profitB / TotalStake input) 4;
       MaxROI := round (math.Max profitA profitB / TotalStake input) 4;
       MarketEfficiency := round marketEff 4 |} |},
   None).

Definition ProportionalCalculator_Calculate (input : CalculationInput) : outcome :=
  let weightA := 1 / OddsA input in
  let weightB := 1 / OddsB input in
  let totalWeight := weightA + weightB in
  let stakeA := round (TotalStake input * (weightA / totalWeight)) 2 in
  let stakeB := round (TotalStake input * (weightB / totalWeight)) 2 in
  let returnA := stakeA * OddsA input in
  let returnB := stakeB * OddsB input in
  let profitA := returnA - TotalStake input in
  let profitB := returnB - TotalStake input in
  let marketEff := marketEfficiency (OddsA input) (OddsB input) in
  (Some {|
     rMethod := MethodProportional;
     rTotalStake := TotalStake input;
     rCurrency := Currency input;
     OptionA := {|
       Name := NameA input;
       Odds := OddsA input;
       ImpliedProbability := impliedProbability (OddsA input);
       Probability := 0;
       Stake := stakeA;
       ReturnIfWins := round returnA 2;
       ProfitIfWins := round profitA 2;
       ROI := round (profitA / TotalStake input) 4 |};
     OptionB := {|
       Name := NameB input;
       Odds := OddsB input;
       ImpliedProbability := impliedProbability (OddsB input);
       Probability := 0;
       Stake := stakeB;
       ReturnIfWins := round returnB 2;
       ProfitIfWins := round profitB 2;
       ROI := round (profitB / TotalStake input) 4 |};
     rSummary := {|
       GuaranteedProfit := flt marketEff 1;
       MinProfit := round (math.Min profitA profitB) 2;
       MaxProfit := round (math.Max profitA profitB) 2;
       ExpectedValue := round ((profitA + profitB) / 2) 2;
       MinROI := round (math.Min profitA profitB / TotalStake input) 4;
       MaxROI := round (math.Max profitA profitB / TotalStake input) 4;
       MarketEfficiency := round marketEff 4 |} |},
   None).

(** Method dispatch of the interface value. *)
Definition Calculate (c : Calculator) (input : CalculationInput) : outcome :=
  match c with
  | ArbitrageCalculator => ArbitrageCalculator_Calculate input
  | KellyCalculator => KellyCalculator_Calculate input
  | ProportionalCalculator => ProportionalCalculator_Calculate input
  end.

End calculator.
(** ** Packages strings, strconv and fmt, as far as the program uses them

    Go strings are byte sequences, and so are the strings here. *)

Module strings.

Local Open Scope string_scope.

Definition HasPrefix (s pre : string) : bool := String.prefix pre s.

Fixpoint HasSuffix (s suffix : string) : bool :=
  String.eqb s suffix ||
  match s with
  | String _ s' => HasSuffix s' suffix
  | EmptyString => false
  end.

Definition bytes (l : list nat) : string :=
  string_of_list_ascii (map ascii_of_nat l).

(** White space in the sense of [unicode.IsSpace], each rune in its UTF-8
    encoding: tab, line feed, vertical tab, form feed, carriage return
    and space; U+0085 and U+00A0; U+1680, U+2000 to U+200A, U+2028,
    U+2029, U+202F, U+205F and U+3000. *)
Definition whiteSpace : list string :=
  map bytes
    [[9]; [10]; [11]; [12]; [13]; [32];
     [194; 133]; [194; 160];
     [225; 154; 128];
     [226; 128; 128]; [226; 128; 129]; [226; 128; 130]; [226; 128; 131];
     [226; 128; 132]; [226; 128; 133]; [226; 128; 134]; [226; 128; 135];
     [226; 128; 136]; [226; 128; 137]; [226; 128; 138];
     [226; 128; 168]; [226; 128; 169];
     [226; 128; 175];
     [226; 129; 159];
     [227; 128; 128]]%nat.

(** [n] bounds the number of runes taken off; the length of [s] is
    enough. *)
Fixpoint trimLeft (n : nat) (s : string) : string :=
  match n with
  | O => s
  | S n' =>
      match find (fun w => HasPrefix s w) whiteSpace with
      | Some w =>
          trimLeft n' (String.substring (String.length w)
                                        (String.length s - String.length w) s)
      | None => s
      end
  end.

Fixpoint trimRight (n : nat) (s : string) : string :=
  match n with
  | O => s
  | S n' =>
      match find (fun w => HasSuffix s w) whiteSpace with
      | Some w => trimRight n' (String.substring 0 (String.length s - String.length w) s)
      | None => s
      end
  end.

Definition TrimSpace (s : string) : string :=
  let s := trimLeft (String.length s) s in
  trimRight (String.length s) s.

Fixpoint Contains (s substr : string) : bool :=
  String.prefix substr s ||
  match s with
  | String _ s' => Contains s' substr
  | EmptyString => false
  end.

Definition TrimSuffix (s suffix : string) : string :=
  if HasSuffix s suffix
  then String.substring 0 (String.length s - String.length suffix) s
  else s.

(** [strings.Split] at a one-byte separator, its only use here. *)
Fixpoint Split (s : string) (sep : ascii) : list string :=
  match s with
  | EmptyString => [EmptyString]
  | String c s' =>
      match Split s' sep with
      | p :: ps => if Ascii.eqb c sep then EmptyString :: p :: ps else String c p :: ps
      | [] => [EmptyString]
      end
  end.

End strings.
Module strconv.

Local Open Scope string_scope.

Definition error := string.

Definition quote : string := String (ascii_of_nat 34) EmptyString.

Definition syntaxError (s : string) : error :=
  "strconv.ParseFloat: parsing " ++ quote ++ s ++ quote ++ ": invalid syntax".

Definition digitOf (c : ascii) : option Z :=
  let n := nat_of_ascii c in
  if Nat.leb 48 n && Nat.leb n 57 then Some (Z.of_nat (n - 48)) else None.

(** Reads the longest run of digits: its value on top of [acc], its
    length on top of [count], and the rest of the string. *)
Fixpoint readDigits (s : string) (acc : Z) (count : nat) : Z * nat * string :=
  match s with
  | String c s' =>
      match digitOf c with
      | Some d => readDigits s' (10 * acc + d) (S count)
      | None => (acc, count, s)
      end
  | EmptyString => (acc, count, EmptyString)
  end.

(** [strconv.ParseFloat] on plain decimal literals: an optional sign, an
    integer part and an optional fraction, at least one digit in all.
    This reader serves the concrete odds below; the general statements
    about the parser hold for any [ParseFloat]. *)
Definition ParseFloat_decimal (s : string) : float64 * option error :=
  let '(negative, body) :=
    match s with
    | String "+" t => (false, t)
    | String "-" t => (true, t)
    | _ => (false, s)
    end in
  let '(ip, ni, rest) := readDigits body 0 0 in
  let '(fp, nf, rest) :=
    match rest with
    | String "." t => readDigits t 0 0
    | _ => (0%Z, 0%nat, rest)
    end in
  if Nat.eqb (ni + nf) 0 || negb (String.eqb rest EmptyString)
  then (0, Some (syntaxError s))
  else
    let scale := (10 ^ Z.of_nat nf)%Z in
    let v := of_ratio (ip * scale + fp) (Z.to_pos scale) in
    (if negative then - v else v, None).

End strconv.

Module fmt.

Local Open Scope string_scope.

(** The verb [%d] on a non-negative integer. *)
Definition decimal (n : nat) : string := NilZero.string_of_uint (Nat.to_uint n).

(** The decimal digits of a non-negative integer. *)
Definition natural (n : Z) : string := NilZero.string_of_uint (N.to_uint (Z.to_N n)).

Fixpoint zeros (n : nat) : string :=
  match n with
  | O => EmptyString
  | S n' => "0" ++ zeros n'
  end.

(** The exact value [m * 2^e] in units of [10^-prec]: the nearest
    integer, halves to the even neighbour, as decimal formatting
    rounds. *)
Definition scaled (m : positive) (e : Z) (prec : nat) : Z :=
  let n := (Zpos m * 10 ^ Z.of_nat prec)%Z in
  match e with
  | Zneg k =>
      let d := Z.pow_pos 2 k in
      let q := (n / d)%Z in
      match Z.compare (2 * (n mod d)) d with
      | Lt => q
      | Gt => (q + 1)%Z
      | Eq => if Z.even q then q else (q + 1)%Z
      end
  | _ => (n * 2 ^ e)%Z
  end.

(** The verb [%.Nf]: sign, integer part and [prec] decimals. *)
Definition fixed (prec : nat) (x : float64) : string :=
  let digits (n : Z) :=
    let m := (10 ^ Z.of_nat prec)%Z in
    let ip := natural (n / m) in
    let fp := natural (n mod m) in
    ip ++
    match prec with
    | O => EmptyString
    | _ => "." ++ zeros (prec - String.length fp) ++ fp
    end in
  match x with
  | S754_nan => "NaN"
  | S754_infinity s => if s then "-Inf" else "+Inf"
  | S754_zero s => (if s then "-" else EmptyString) ++ digits 0%Z
  | S754_finite s m e => (if s then "-" else EmptyString) ++ digits (scaled m e prec)
  end.

Definition newline : string := String (ascii_of_nat 10) EmptyString.

End fmt.

(** ** package parser *)

Module parser.

Local Open Scope string_scope.

Definition error := string.

Section WithParseFloat.

(** [strconv.ParseFloat(s, 64)]: the value and the error, [None] for
    [nil]. *)
Variable ParseFloat : string -> float64 * option error.

Definition parseDecimal (input : string) : float64 * option error :=
  match ParseFloat input with
  | (_, Some err) => (0, Some ("invalid decimal odds '" ++ input ++ "': " ++ err))
  | (odds, None) =>
      if flt odds 1 then (0, Some ("decimal odds must be >= 1.0, got: " ++ input))
      else (odds, None)
  end.

Definition parsePercentage (input : string) : float64 * option error :=
  let percentStr := strings.TrimSuffix input "%" in
  let percentStr := strings.TrimSpace percentStr in
  match ParseFloat percentStr with
  | (_, Some err) => (0, Some ("invalid percentage odds '" ++ input ++ "': " ++ err))
  | (percentage, None) =>
      if fle percentage 0 then (0, Some ("percentage must be > 0, got: " ++ input))
      else if flt 100 percentage
      then (0, Some ("percentage must be <= 100, got: " ++ input))
      else (100 / percentage, None)
  end.

Definition parseFractional (input : string) : float64 * option error :=
  match strings.Split input "/" with
  | [part0; part1] =>
      match ParseFloat (strings.TrimSpace part0) with
      | (_, Some err) => (0, Some ("invalid numerator in '" ++ input ++ "': " ++ err))
      | (numerator, None) =>
          match ParseFloat (strings.TrimSpace part1) with
          | (_, Some err) =>
              (0, Some ("invalid denominator in '" ++ input ++ "': " ++ err))
          | (denominator, None) =>
              if feq denominator 0
              then (0, Some ("denominator cannot be zero in '" ++ input ++ "'"))
              else if flt numerator 0 || flt denominator 0
              then (0, Some ("fractional odds must be positive, got: " ++ input))
              else ((numerator / denominator) + 1, None)
          end
      end
  | _ => (0, Some ("invalid fractional odds '" ++ input ++ "'"))
  end.

Definition parseAmerican (input : string) : float64 * option error :=
  match ParseFloat input with
  | (_, Some err) => (0, Some ("invalid American odds '" ++ input ++ "': " ++ err))
  | (american, None) =>
      if feq american 0 then (0, Some "American odds cannot be zero")
      else if flt 0 american then ((american / 100) + 1, None)
      else ((100 / math.Abs american) + 1, None)
  end.

Definition ParseOdds (input : string) : float64 * option error :=
  let input := strings.TrimSpace input in
  if String.eqb input EmptyString then (0, Some "odds cannot be empty")
  else if strings.HasSuffix input "%" then parsePercentage input
  else if strings.Contains input "/" then parseFractional input
  else if strings.HasPrefix input "+" || strings.HasPrefix input "-"
  then parseAmerican input
  else parseDecimal input.

End WithParseFloat.

Definition ImpliedProbability (decimalOdds : float64) : float64 :=
  if fle decimalOdds 0 then 0 else 1 / decimalOdds.

End parser.

(** ** package validator *)

Module validator.
Import types.

Local Open Scope string_scope.

Definition error := string.

Record ValidationError := mkValidationError { Errors : list error }.

(** The builtin [append] with one element. *)
Definition append {A : Type} (s : list A) (x : A) : list A := (s ++ [x])%list.

(** The loop of [Error]: one numbered line per error onto the builder. *)
Fixpoint writeErrors (sb : string) (i : nat) (errs : list error) : string :=
  match errs with
  | [] => sb
  | err :: rest =>
      writeErrors (sb ++ ("  " ++ fmt.decimal (i + 1) ++ ". " ++ err ++ fmt.newline))
                  (S i) rest
  end.

Definition Error (e : ValidationError) : string :=
  match Errors e with
  | [] => EmptyString
  | [err] => err
  | errs => writeErrors ("multiple validation errors:" ++ fmt.newline) 0 errs
  end.

Definition ValidateOdds (odds : float64) : option error :=
  if flt odds 1.01
  then Some ("odds must be >= 1.01, got: " ++ fmt.fixed 2 odds)
  else None.

Definition ValidateProbability (prob : float64) : option error :=
  if fle prob 0 || fle 1 prob
  then Some ("probability must be between 0 and 1 (exclusive), got: " ++ fmt.fixed 4 prob)
  else None.

Definition ValidateTotalStake (total : float64) : option error :=
  if fle total 0
  then Some ("total stake must be positive, got: " ++ fmt.fixed 2 total)
  else None.

(** [errs] is the slice the source appends to; the result is [None] for
    a nil error. *)
Definition ValidateCalculationInput (input : CalculationInput) : option ValidationError :=
  let errs : list error := [] in
  let errs :=
    match ValidateOdds (OddsA input) with
    | Some err => append errs ("Option A: " ++ err)
    | None => errs
    end in
  let errs :=
    match ValidateOdds (OddsB input) with
    | Some err => append errs ("Option B: " ++ err)
    | None => errs
    end in
  let errs :=
    match ValidateTotalStake (TotalStake input) with
    | Some err => append errs err
    | None => errs
    end in
  let errs :=
    if String.eqb (Method input) MethodKelly then
      let errs :=
        if feq (ProbA input) 0 || feq (ProbB input) 0
        then append errs "Kelly method requires probability estimates for both options (use --prob-a and --prob-b)"
        else errs in
      let errs :=
        if negb (feq (ProbA input) 0) then
          match ValidateProbability (ProbA input) with
          | Some err => append errs ("Option A probability: " ++ err)
          | None => errs
          end
        else errs in
      let errs :=
        if negb (feq (ProbB input) 0) then
          match ValidateProbability (ProbB input) with
          | Some err => append errs ("Option B probability: " ++ err)
          | None => errs
          end
        else errs in
      let errs :=
        if flt 0 (ProbA input) && flt 0 (ProbB input) then
          let sum := ProbA input + ProbB input in
          if flt 1 sum
          then append errs ("warning: probabilities sum to " ++ fmt.fixed 4 sum ++ " (> 1.0)")
          else errs
        else errs in
      errs
    else if String.eqb (Method input) MethodArbitrage
            || String.eqb (Method input) MethodProportional then
      errs
    else
      append errs ("invalid calculation method: " ++ Method input) in
  let errs :=
    if flt 0 (OddsA input) && flt 0 (OddsB input) then
      let marketEff := (1 / OddsA input) + (1 / OddsB input) in
      if String.eqb (Method input) MethodArbitrage && fle 1 marketEff
      then append errs ("warning: combined implied probability ("
                      ++ fmt.fixed 2 (marketEff * 100)
                      ++ "%) >= 100% - no guaranteed profit")
      else errs
    else errs in
  if Nat.ltb 0 (List.length errs)
  then Some {| Errors := errs |}
  else None.

Definition ValidateCalculationInputStrict (input : CalculationInput)
  : option ValidationError :=
  ValidateCalculationInput input.

End validator.

(** ** package formatter *)

Module formatter.

Local Open Scope string_scope.

(** The slice expression [s[:n]]; it panics, here [None], when [n] is
    negative or beyond the length of [s]. *)
Definition slice_to (s : string) (n : Z) : option string :=
  if (n <? 0)%Z || (Z.of_nat (String.length s) <? n)%Z then None
  else Some (String.substring 0 (Z.to_nat n) s).

Definition truncate (s : string) (maxLen : Z) : option string :=
  if (Z.of_nat (String.length s) <=? maxLen)%Z then Some s
  else if (maxLen <=? 3)%Z then slice_to s maxLen
  else
    match slice_to s (maxLen - 3) with
    | Some head => Some (head ++ "...")
    | None => None
    end.

End formatter.

(** ** package ui *)

Module ui.
Import types.

Local Open Scope Z_scope.

(** Go's [int] is 64 bits wide here, and its arithmetic wraps around. *)
Definition int (z : Z) : Z := (z + 2 ^ 63) mod 2 ^ 64 - 2 ^ 63.

(** The loop of [intToStr]: while [n > 0], the digit [n % 10] goes in
    front of [digits] and [n] is divided by 10.  [fuel] bounds the number
    of rounds; a 64-bit [n] needs fewer than 20. *)
Fixpoint prependDigits (fuel : nat) (n : Z) (digits : string) : string :=
  match fuel with
  | O => digits
  | S fuel' =>
      if 0 <? n
      then prependDigits fuel' (n / 10)
             (String (ascii_of_nat (Z.to_nat (48 + n mod 10))) digits)
      else digits
  end.

Definition intToStr (n : Z) : string :=
  if n =? 0 then "0"%string
  else
    let negative := n <? 0 in
    let n := if negative then int (- n) else n in
    let digits := prependDigits 20 n EmptyString in
    if negative then String "-" digits else digits.

Definition fieldOddsA : Z := 0.
Definition fieldOddsB : Z := 1.
Definition fieldTotal : Z := 2.
Definition fieldNameA : Z := 3.
Definition fieldNameB : Z := 4.
Definition fieldProbA : Z := 5.
Definition fieldProbB : Z := 6.
Definition fieldCount : Z := 7.

(** Of the model, the two fields that the navigation between the input
    fields reads and writes.  The text inputs themselves, which
    [focusField] blurs and focuses, are not represented. *)
Record Model := mkModel {
  activeField : Z;
  method : CalculationMethod
}.

Definition focusField (m : Model) (idx : Z) : Model :=
  {| activeField := idx; method := method m |}.

Definition nextField (m : Model) : Model :=
  let next := activeField m + 1 in
  let next :=
    if negb (String.eqb (method m) MethodKelly)
       && ((next =? fieldProbA) || (next =? fieldProbB))
    then fieldOddsA else next in
  let next := if fieldCount <=? next then fieldOddsA else next in
  focusField m next.

Definition prevField (m : Model) : Model :=
  let prev := activeField m - 1 in
  let prev :=
    if prev <? 0
    then (if String.eqb (method m) MethodKelly then fieldProbB else fieldNameB)
    else prev in
  let prev :=
    if negb (String.eqb (method m) MethodKelly)
       && ((prev =? fieldProbA) || (prev =? fieldProbB))
    then fieldNameB else prev in
  focusField m prev.

End ui.
(** * Specification vocabulary *)

Import types calculator.

(** ** Values *)

(** The real number a finite [float64] stands for. *)
Definition finite (x : float64) : bool :=
  match x with
  | S754_zero _ | S754_finite _ _ _ => true
  | _ => false
  end.

Definition magnitude (m : positive) (e : Z) : Q :=
  (inject_Z (Zpos m) * Qpower 2 e)%Q.

Definition value (x : float64) : Q :=
  match x with
  | S754_finite s m e => if s then (- magnitude m e)%Q else magnitude m e
  | _ => 0%Q
  end.

(** [x] is a value of the format: its mantissa has no more than 53 bits
    and its exponent is the least one that fits. *)
Definition valid (x : float64) : bool := valid_binary prec emax x.

(** [x] is a number within [tol] of [q]. *)
Definition within (x : float64) (q tol : Q) : Prop :=
  finite x = true /\ (Qabs (value x - q) <= tol)%Q.

(** [signed s x]: [x] is NaN or carries the sign [s]. *)
Definition signed (s : bool) (x : float64) : Prop :=
  match x with
  | S754_nan => True
  | S754_zero s' | S754_infinity s' | S754_finite s' _ _ => s' = s
  end.

(** [x] is not below zero: it is NaN, or its sign bit is clear. *)
Definition not_negative (x : float64) : bool :=
  match x with
  | S754_nan => true
  | S754_zero s | S754_infinity s | S754_finite s _ _ => negb s
  end.

(** What every strategy derives from its two (already rounded) stakes. *)
Definition returnOf (stake odds : float64) : float64 := stake * odds.
Definition profitOf (stake odds totalStake : float64) : float64 :=
  returnOf stake odds - totalStake.

(** ** Shapes of odds text *)

(** The three shapes the parser looks for, on strings. *)
Definition trailing_percent (s : string) : Prop := exists t, s = (t ++ "%")%string.
Definition contains_slash (s : string) : Prop :=
  exists a b, s = (a ++ "/" ++ b)%string.
Definition leading_sign (s : string) : Prop :=
  exists t, s = ("+" ++ t)%string \/ s = ("-" ++ t)%string.

(** ** Validation checks *)

(** The checks as the specification lists them, each with the condition
    under which it fails and the message it then contributes. *)
Definition check : Type := (bool * string)%type.

Section Checks.

Variable input : CalculationInput.

Local Open Scope string_scope.

(** Each side's odds are at least 1.01. *)
Definition check_oddsA : check :=
  (flt (OddsA input) 1.01,
   "Option A: " ++ "odds must be >= 1.01, got: " ++ fmt.fixed 2 (OddsA input)).
Definition check_oddsB : check :=
  (flt (OddsB input) 1.01,
   "Option B: " ++ "odds must be >= 1.01, got: " ++ fmt.fixed 2 (OddsB input)).

(** The total stake is positive. *)
Definition check_stake : check :=
  (fle (TotalStake input) 0,
   "total stake must be positive, got: " ++ fmt.fixed 2 (TotalStake input)).

(** Kelly: both probabilities are present. *)
Definition check_missing : check :=
  (feq (ProbA input) 0 || feq (ProbB input) 0,
   "Kelly method requires probability estimates for both options (use --prob-a and --prob-b)").

(** Kelly: a probability that is present lies strictly inside (0,1). *)
Definition check_probA : check :=
  (negb (feq (ProbA input) 0) && (fle (ProbA input) 0 || fle 1 (ProbA input)),
   "Option A probability: "
     ++ "probability must be between 0 and 1 (exclusive), got: "
     ++ fmt.fixed 4 (ProbA input)).
Definition check_probB : check :=
  (negb (feq (ProbB input) 0) && (fle (ProbB input) 0 || fle 1 (ProbB input)),
   "Option B probability: "
     ++ "probability must be between 0 and 1 (exclusive), got: "
     ++ fmt.fixed 4 (ProbB input)).

(** Kelly: two present probabilities do not sum above 1. *)
Definition check_sum : check :=
  (flt 0 (ProbA input) && flt 0 (ProbB input) && flt 1 (ProbA input + ProbB input),
   "warning: probabilities sum to "
     ++ fmt.fixed 4 (ProbA input + ProbB input) ++ " (> 1.0)").

(** The strategy is a known one. *)
Definition check_method : check :=
  (true, "invalid calculation method: " ++ Method input).

(** Arbitrage: the combined implied probability is below 1. *)
Definition check_market : check :=
  (flt 0 (OddsA input) && flt 0 (OddsB input)
   && (String.eqb (Method input) MethodArbitrage
       && fle 1 (1 / OddsA input + 1 / OddsB input)),
   "warning: combined implied probability ("
     ++ fmt.fixed 2 ((1 / OddsA input + 1 / OddsB input) * 100)
     ++ "%) >= 100% - no guaranteed profit").

Definition checks_of_method : list check :=
  if String.eqb (Method input) MethodKelly
  then [check_missing; check_probA; check_probB; check_sum]
  else if String.eqb (Method input) MethodArbitrage
          || String.eqb (Method input) MethodProportional
  then []
  else [check_method].

(** The checks that apply to [input], in the order they are run. *)
Definition applicable_checks : list check :=
  ([check_oddsA; check_oddsB; check_stake] ++ checks_of_method ++ [check_market])%list.

(** The messages of the checks that fail. *)
Definition failed_checks : list string :=
  map snd (filter fst applicable_checks).

End Checks.

(** No error for no failure, else the one composite error. *)
Definition composite (errs : list string) : option validator.ValidationError :=
  match errs with
  | [] => None
  | _ => Some (validator.mkValidationError errs)
  end.

(** The lines [  1. msg], [  2. msg], ... *)
Definition numbered_line (i : nat) (msg : string) : string :=
  ("  " ++ fmt.decimal i ++ ". " ++ msg ++ fmt.newline)%string.

Fixpoint numbered_from (i : nat) (errs : list string) : string :=
  match errs with
  | [] => EmptyString
  | err :: rest => (numbered_line i err ++ numbered_from (S i) rest)%string
  end.


(** * Further vocabulary *)

(** The number of occurrences of a byte. *)
Fixpoint count_byte (c : ascii) (s : string) : nat :=
  match s with
  | EmptyString => O
  | String a s' => if Ascii.eqb a c then S (count_byte c s') else count_byte c s'
  end.

(** [x] is a number: finite or infinite, not NaN. *)
Definition number (x : float64) : bool := negb (math.IsNaN x).

(** The same input with the two options exchanged. *)
Definition swap (input : CalculationInput) : CalculationInput :=
  {| Method := Method input;
     OddsA := OddsB input;
     OddsB := OddsA input;
     TotalStake := TotalStake input;
     ProbA := ProbB input;
     ProbB := ProbA input;
     NameA := NameB input;
     NameB := NameA input;
     Currency := Currency input |}.

(** The same outcome with the two options exchanged. *)
Definition mirror (out : outcome) : outcome :=
  match out with
  | (Some r, err) =>
      (Some {| rMethod := rMethod r;
               rTotalStake := rTotalStake r;
               rCurrency := rCurrency r;
               OptionA := OptionB r;
               OptionB := OptionA r;
               rSummary := rSummary r |}, err)
  | (None, err) => (None, err)
  end.

(** The number a string of decimal digits denotes, on top of [acc];
    [None] when a byte is not a digit. *)
Fixpoint numeral_from (acc : Z) (s : string) : option Z :=
  match s with
  | EmptyString => Some acc
  | String c s' =>
      match strconv.digitOf c with
      | Some d => numeral_from (10 * acc + d) s'
      | None => None
      end
  end.

(** The number a decimal numeral denotes; the empty string is none. *)
Definition numeral (s : string) : option Z :=
  match s with
  | EmptyString => None
  | _ => numeral_from 0 s
  end.

(** The field that has the focus is one the form shows: the two
    probability fields are shown for the Kelly strategy only. *)
Definition visible (m : ui.Model) : Prop :=
  (0 <= ui.activeField m < ui.fieldCount)%Z /\
  (ui.method m <> MethodKelly -> (ui.activeField m < ui.fieldProbA)%Z).
(** * Facts *)

(** ** Comparisons *)

Section Comparisons.

Lemma compare_cont_swap m1 m2 :
  Pos.compare_cont Eq m2 m1 = CompOpp (Pos.compare_cont Eq m1 m2).
Proof. rewrite Pos.compare_cont_antisym. reflexivity. Qed.

Lemma SFcompare_antisym (x y : float64) :
  SFcompare y x = option_map CompOpp (SFcompare x y).
Proof.
  destruct x as [s1|s1| |s1 m1 e1], y as [s2|s2| |s2 m2 e2]; simpl;
    try reflexivity;
    try (destruct s1; reflexivity); try (destruct s2; reflexivity);
    try (destruct s1, s2; reflexivity).
  destruct s1, s2; simpl; try reflexivity.
  - rewrite (Z.compare_antisym e1 e2).
    destruct (e1 ?= e2)%Z; simpl; try reflexivity.
    rewrite (compare_cont_swap m1 m2), CompOpp_involutive. reflexivity.
  - rewrite (Z.compare_antisym e1 e2).
    destruct (e1 ?= e2)%Z; simpl; try reflexivity.
    rewrite (compare_cont_swap m1 m2). reflexivity.
Qed.

(** [x < y] excludes [y <= x], [y < x] and [x == y], and gives [x <= y]. *)
Lemma flt_true x y :
  flt x y = true ->
  fle y x = false /\ flt y x = false /\ feq x y = false /\ feq y x = false /\
  fle x y = true.
Proof.
  unfold flt, fle, feq, SFltb, SFleb, SFeqb. rewrite (SFcompare_antisym x y).
  destruct (SFcompare x y) as [[| |]|]; simpl; intro H;
    try discriminate; repeat split; reflexivity.
Qed.

(** [x <= y] excludes [y < x]. *)
Lemma fle_true x y : fle x y = true -> flt y x = false.
Proof.
  unfold flt, fle, SFltb, SFleb. rewrite (SFcompare_antisym x y).
  destruct (SFcompare x y) as [[| |]|]; simpl; intro H;
    try discriminate; reflexivity.
Qed.

(** [x == y] is symmetric and excludes both strict orders. *)
Lemma feq_true x y :
  feq x y = true ->
  feq y x = true /\ flt x y = false /\ flt y x = false /\
  fle x y = true /\ fle y x = true.
Proof.
  unfold flt, fle, feq, SFltb, SFleb, SFeqb. rewrite (SFcompare_antisym x y).
  destruct (SFcompare x y) as [[| |]|]; simpl; intro H;
    try discriminate; repeat split; reflexivity.
Qed.

End Comparisons.

(** ** Signs *)

Section Signs.

Lemma not_negative_signed x : not_negative x = true <-> signed false x.
Proof.
  destruct x as [s|s| |s m e]; simpl; try (destruct s; simpl); split;
    intro H; try reflexivity; try discriminate; exact I.
Qed.

(** Rounding keeps the sign it is given. *)
Lemma binary_round_aux_signed s m e l :
  signed s (binary_round_aux prec emax s m e l).
Proof.
  unfold binary_round_aux.
  destruct (shr_fexp prec emax m e l) as [mrs' e'].
  destruct (shr_fexp prec emax _ e' loc_Exact) as [mrs'' e''].
  destruct (shr_m mrs'') as [|p|p]; [reflexivity | | exact I].
  destruct (e'' <=? emax - prec)%Z; reflexivity.
Qed.

Lemma binary_round_signed s m e : signed s (binary_round prec emax s m e).
Proof.
  unfold binary_round.
  destruct (shl_align m e _) as [mz ez]. apply binary_round_aux_signed.
Qed.

Lemma fmul_signed sx sy x y :
  signed sx x -> signed sy y -> signed (xorb sx sy) (x * y).
Proof.
  unfold fmul.
  destruct x as [s1|s1| |s1 m1 e1], y as [s2|s2| |s2 m2 e2]; simpl;
    intros Hx Hy; subst; try reflexivity; try exact I.
  apply binary_round_aux_signed.
Qed.

Lemma fdiv_signed sx sy x y :
  signed sx x -> signed sy y -> signed (xorb sx sy) (x / y).
Proof.
  unfold fdiv.
  destruct x as [s1|s1| |s1 m1 e1], y as [s2|s2| |s2 m2 e2]; simpl;
    intros Hx Hy; subst; try reflexivity; try exact I.
  destruct (SFdiv_core_binary prec emax (Zpos m1) e1 (Zpos m2) e2) as [[mz ez] lz].
  apply binary_round_aux_signed.
Qed.


Lemma Round_signed s x : signed s x -> signed s (math.Round x).
Proof.
  destruct x as [s1|s1| |s1 m1 e1]; simpl; intro Hx; subst; try reflexivity; try exact I.
  destruct (0 <=? e1)%Z; [reflexivity|].
  destruct (Z.shiftr _ _); try reflexivity.
  apply binary_round_signed.
Qed.

(** The sign of a number above zero, and the order of a number whose
    sign bit is clear. *)
Lemma positive_signed x : flt 0 x = true -> signed false x.
Proof. destruct x as [s|[|]| |[|] m e]; vm_compute; intro H; try discriminate; auto. Qed.




End Signs.

(** ** round *)

Section RoundFacts.

Lemma Pow_10_2 : math.Pow 10 2 = 100.
Proof. reflexivity. Qed.

Lemma Pow_10_4 : math.Pow 10 4 = 10000.
Proof. reflexivity. Qed.

Lemma round_2 val : round val 2 = math.Round (val * 100) / 100.
Proof. unfold round. rewrite Pow_10_2. reflexivity. Qed.

Lemma round_4 val : round val 4 = math.Round (val * 10000) / 10000.
Proof. unfold round. rewrite Pow_10_4. reflexivity. Qed.


Lemma round_4_signed s val : signed s val -> signed s (round val 4).
Proof.
  intro H. rewrite round_4.
  rewrite <- (xorb_false_r s). apply fdiv_signed; [|reflexivity].
  apply Round_signed.
  rewrite <- (xorb_false_r s). apply fmul_signed; [exact H | reflexivity].
Qed.

End RoundFacts.

(** ** math.Round on values *)

Section RoundValues.

Local Open Scope Z_scope.

Lemma digits2_size p : digits2_pos p = Pos.size p.
Proof. induction p as [p IH|p IH|]; simpl; try rewrite IH; reflexivity. Qed.

(** A mantissa of [d] digits lies in [[2^(d-1), 2^d)]. *)
Lemma digits2_bounds p :
  2 ^ (Zpos (digits2_pos p) - 1) <= Zpos p < 2 ^ Zpos (digits2_pos p).
Proof.
  rewrite digits2_size. split.
  - assert (L := Pos.size_le p).
    assert (E : 2 ^ Zpos (Pos.size p) = 2 * 2 ^ (Zpos (Pos.size p) - 1)).
    { rewrite <- Z.pow_succ_r by lia. f_equal. lia. }
    assert (L' : 2 ^ Zpos (Pos.size p) <= Zpos p~0).
    { rewrite <- Pos2Z.inj_pow. apply Pos2Z.pos_le_pos. exact L. }
    rewrite E in L'. rewrite Pos2Z.inj_xO in L'. lia.
  - assert (G := Pos.size_gt p).
    rewrite <- Pos2Z.inj_pow. apply Pos2Z.pos_lt_pos. exact G.
Qed.

Lemma digits2_le p d : 0 <= d -> Zpos p < 2 ^ d -> Zpos (digits2_pos p) <= d.
Proof.
  intros Hd H. destruct (digits2_bounds p) as [L _].
  destruct (Z_le_gt_dec (Zpos (digits2_pos p)) d) as [C|C]; [exact C|].
  exfalso.
  assert (M : 2 ^ d <= 2 ^ (Zpos (digits2_pos p) - 1)) by (apply Z.pow_le_mono_r; lia).
  lia.
Qed.

Lemma iter_xO n p :
  Zpos (Pos.iter xO n p) = Zpos n * 2 ^ Zpos p /\
  digits2_pos (Pos.iter xO n p) = (digits2_pos n + p)%positive.
Proof.
  induction p as [|p [IH1 IH2]] using Pos.peano_ind.
  - simpl. split; [lia|]. rewrite Pos.add_1_r. reflexivity.
  - rewrite Pos.iter_succ. split.
    + rewrite Pos2Z.inj_xO, IH1, Pos2Z.inj_succ, Z.pow_succ_r by lia. lia.
    + simpl. rewrite IH2. lia.
Qed.

(** An integer of at most 53 bits is represented exactly. *)
Lemma binary_round_exact s n :
  Zpos (digits2_pos n) <= 53 ->
  exists mz j,
    binary_round prec emax s n 0 = S754_finite s mz (- j) /\
    0 <= j /\ Zpos mz = Zpos n * 2 ^ j.
Proof.
  intro D. set (d := Zpos (digits2_pos n)) in *.
  assert (D1 : 1 <= d) by (unfold d; lia).
  assert (A : exists mz, shl_align n 0 (d - 53) = (mz, d - 53) /\
                         Zpos mz = Zpos n * 2 ^ (53 - d) /\
                         Zpos (digits2_pos mz) = 53).
  { unfold shl_align. rewrite Z.sub_0_r.
    destruct (d - 53) as [|q|q] eqn:E; try lia.
    - exists n. replace (53 - d) with 0 by lia. repeat split; lia.
    - destruct (iter_xO n q) as [I1 I2].
      exists (Pos.iter xO n q). replace (53 - d) with (Zpos q) by lia.
      repeat split; [exact I1|]. rewrite I2. fold d in E. unfold d in *. lia. }
  destruct A as [mz [A1 [A2 A3]]].
  exists mz, (53 - d). split; [|split; [lia | exact A2]].
  unfold binary_round.
  replace (fexp prec emax (Zpos (digits2_pos n) + 0)) with (d - 53)
    by (unfold fexp, SpecFloat.emin, prec, emax; fold d; lia).
  rewrite A1. unfold binary_round_aux, shr_fexp.
  cbn [Zdigits2 shr_record_of_loc]. rewrite A3.
  replace (fexp prec emax (53 + (d - 53)) - (d - 53)) with 0
    by (unfold fexp, SpecFloat.emin, prec, emax; lia).
  cbn [shr loc_of_shr_record shr_m round_nearest_even Zdigits2 shr_record_of_loc].
  rewrite A3.
  replace (fexp prec emax (53 + (d - 53)) - (d - 53)) with 0
    by (unfold fexp, SpecFloat.emin, prec, emax; lia).
  cbn [shr shr_m].
  replace (d - 53 <=? emax - prec) with true
    by (symmetry; apply Z.leb_le; unfold prec, emax; lia).
  f_equal. lia.
Qed.

(** A valid mantissa has at most 53 bits. *)
Lemma valid_digits s m e :
  valid (S754_finite s m e) = true -> Zpos (digits2_pos m) <= 53.
Proof.
  unfold valid. simpl. unfold bounded, canonical_mantissa. intro H.
  apply andb_true_iff in H. destruct H as [H _]. apply Z.eqb_eq in H.
  unfold fexp, SpecFloat.emin, prec, emax in H. lia.
Qed.

(** The integer [math.Round] picks for [m / 2^k]. *)
Lemma nearest_bounds m k :
  0 < k ->
  let n := Z.shiftr (Zpos m + Z.shiftl 1 (k - 1)) k in
  0 <= n /\ 2 * 2 ^ k * n <= 2 * Zpos m + 2 ^ k /\ 2 * Zpos m < 2 * 2 ^ k * n + 2 ^ k.
Proof.
  intros Hk n. unfold n.
  rewrite Z.shiftr_div_pow2, Z.shiftl_mul_pow2 by lia. rewrite Z.mul_1_l.
  assert (E : 2 ^ k = 2 * 2 ^ (k - 1)).
  { rewrite <- Z.pow_succ_r by lia. f_equal. lia. }
  assert (P : 0 < 2 ^ (k - 1)) by (apply Z.pow_pos_nonneg; lia).
  set (H := 2 ^ (k - 1)) in *. rewrite E.
  assert (L := Z.mul_div_le (Zpos m + H) (2 * H) ltac:(lia)).
  assert (U := Z.mul_succ_div_gt (Zpos m + H) (2 * H) ltac:(lia)).
  assert (N : 0 <= (Zpos m + H) / (2 * H)) by (apply Z.div_pos; lia).
  split; [exact N|]. split; lia.
Qed.

Lemma nearest_digits m k :
  0 < k -> Zpos (digits2_pos m) <= 53 ->
  Z.shiftr (Zpos m + Z.shiftl 1 (k - 1)) k < 2 ^ 53.
Proof.
  intros Hk D. destruct (nearest_bounds m k Hk) as [N [L _]].
  set (n := Z.shiftr _ _) in *.
  assert (M : Zpos m < 2 ^ 53).
  { destruct (digits2_bounds m) as [_ U].
    assert (2 ^ Zpos (digits2_pos m) <= 2 ^ 53) by (apply Z.pow_le_mono_r; lia). lia. }
  assert (P : 2 <= 2 ^ k).
  { change 2 with (2 ^ 1) at 1. apply Z.pow_le_mono_r; lia. }
  set (D2 := 2 ^ k) in *. change (2 ^ 53) with 9007199254740992 in *. nia.
Qed.

End RoundValues.

Section RoundNearest.

Local Open Scope Q_scope.

Lemma Qpower_2_pos j : (0 <= j)%Z -> 0 < inject_Z (2 ^ j).
Proof.
  intro H. change 0 with (inject_Z 0). rewrite <- Zlt_Qlt.
  apply Z.pow_pos_nonneg; lia.
Qed.

Lemma Qpower_2_opp j : (0 <= j)%Z -> Qpower 2 (- j) == / inject_Z (2 ^ j).
Proof.
  intro H. rewrite Qpower_opp. rewrite Zpower_Qpower by exact H. reflexivity.
Qed.

Lemma value_magnitude s m e :
  value (S754_finite s m e) = if s then - magnitude m e else magnitude m e.
Proof. reflexivity. Qed.

Lemma magnitude_exact mz j n :
  (0 <= j)%Z -> (Zpos mz = n * 2 ^ j)%Z -> magnitude mz (- j) == inject_Z n.
Proof.
  intros H E. unfold magnitude. rewrite E, inject_Z_mult, Qpower_2_opp by exact H.
  assert (P := Qpower_2_pos j H). field. intro Z. rewrite Z in P. discriminate.
Qed.

Lemma magnitude_integer m e :
  (0 <= e)%Z -> magnitude m e == inject_Z (Zpos m * 2 ^ e).
Proof.
  intro H. unfold magnitude. rewrite inject_Z_mult, Zpower_Qpower by exact H.
  reflexivity.
Qed.

(** From the integer bounds to the distance between the integer and the
    ratio. *)
Lemma ratio_bounds m k n :
  (0 < k)%Z ->
  (2 * 2 ^ k * n <= 2 * Zpos m + 2 ^ k)%Z ->
  (2 * Zpos m < 2 * 2 ^ k * n + 2 ^ k)%Z ->
  - (1 # 2) < inject_Z n - magnitude m (- k) /\
  inject_Z n - magnitude m (- k) <= 1 # 2 /\
  0 <= magnitude m (- k).
Proof.
  intros Hk L U.
  assert (P := Qpower_2_pos k ltac:(lia)).
  unfold magnitude. rewrite Qpower_2_opp by lia.
  set (D := inject_Z (2 ^ k)) in *. set (M := inject_Z (Zpos m)).
  set (N := inject_Z n).
  assert (L' : 2 * D * N <= 2 * M + D).
  { unfold D, M, N. change 2 with (inject_Z 2).
    rewrite <- !inject_Z_mult, <- inject_Z_plus. rewrite <- Zle_Qle. exact L. }
  assert (U' : 2 * M < 2 * D * N + D).
  { unfold D, M, N. change 2 with (inject_Z 2).
    rewrite <- !inject_Z_mult, <- inject_Z_plus. rewrite <- Zlt_Qlt. exact U. }
  assert (M0 : 0 <= M).
  { unfold M. change 0 with (inject_Z 0). rewrite <- Zle_Qle. lia. }
  set (v := M * / D).
  assert (E : M == v * D).
  { unfold v. field. intro Z. rewrite Z in P. discriminate. }
  assert (V0 : 0 <= v).
  { unfold v. apply Qmult_le_0_compat; [exact M0|].
    apply Qlt_le_weak, Qinv_lt_0_compat, P. }
  split; [|split; [|exact V0]].
  - apply (Qmult_lt_r _ _ D P). rewrite E in U'. lra.
  - apply (Qmult_le_r _ _ D P). rewrite E in L'. lra.
Qed.

(** An integer at most one half away, on the far side of a tie. *)
Lemma nearest_away a v :
  0 <= v -> - (1 # 2) < a - v -> a - v <= 1 # 2 ->
  Qabs (a - v) <= 1 # 2 /\ (Qabs (a - v) == 1 # 2 -> Qabs v < Qabs a).
Proof.
  intros V L U. split.
  - apply Qabs_Qle_condition. split; lra.
  - intro T. destruct (Qlt_le_dec (a - v) 0) as [C|C].
    + rewrite (Qabs_neg (a - v)) in T by lra. lra.
    + rewrite (Qabs_pos (a - v)) in T by exact C.
      rewrite (Qabs_pos v) by exact V. rewrite (Qabs_pos a) by lra. lra.
Qed.

Lemma nearest_away_opp a v :
  0 <= v -> - (1 # 2) < a - v -> a - v <= 1 # 2 ->
  Qabs (- a - - v) <= 1 # 2 /\ (Qabs (- a - - v) == 1 # 2 -> Qabs (- v) < Qabs (- a)).
Proof.
  intros V L U. destruct (nearest_away a v V L U) as [A B].
  assert (E : - a - - v == - (a - v)) by ring.
  rewrite E, !Qabs_opp. split; assumption.
Qed.

(** [math.Round] returns the integer nearest to its argument, and of two
    nearest ones the one away from zero. *)
Lemma Round_nearest_away x :
  valid x = true -> finite x = true ->
  finite (math.Round x) = true /\
  exists z : Z,
    value (math.Round x) == inject_Z z /\
    Qabs (inject_Z z - value x) <= 1 # 2 /\
    (Qabs (inject_Z z - value x) == 1 # 2 -> Qabs (value x) < Qabs (inject_Z z)).
Proof.
  intros V F. destruct x as [s|s| |s m e]; try discriminate.
  - split; [reflexivity|]. exists 0%Z. simpl.
    split; [reflexivity|]. split; [discriminate | intro H; discriminate H].
  - cbn [math.Round]. destruct (0 <=? e)%Z eqn:E.
    + apply Z.leb_le in E. split; [reflexivity|].
      assert (I := magnitude_integer m e E).
      exists (if s then - (Zpos m * 2 ^ e) else Zpos m * 2 ^ e)%Z.
      rewrite value_magnitude.
      assert (R : (if s then - magnitude m e else magnitude m e)
                  == inject_Z (if s then - (Zpos m * 2 ^ e) else Zpos m * 2 ^ e)%Z).
      { destruct s; [rewrite inject_Z_opp|]; rewrite I; reflexivity. }
      split; [exact R|]. rewrite R.
      assert (Z : forall q : Q, Qabs (q - q) == 0).
      { intro q. assert (E0 : q - q == 0) by ring. rewrite E0. reflexivity. }
      split; [rewrite Z; discriminate|]. rewrite Z. intro H. discriminate H.
    + apply Z.leb_gt in E.
      assert (K : (0 < - e)%Z) by lia.
      assert (D := valid_digits s m e V).
      destruct (nearest_bounds m (- e) K) as [N [L U]].
      assert (B := nearest_digits m (- e) K D).
      destruct (ratio_bounds m (- e) _ K L U) as [RL [RU V0]].
      rewrite Z.opp_involutive in RL, RU, V0.
      set (n := Z.shiftr (Zpos m + Z.shiftl 1 (- e - 1)) (- e)) in *.
      assert (R : finite (match n with
                          | Zpos p => binary_round prec emax s p 0
                          | _ => S754_zero s
                          end) = true /\
                  value (match n with
                         | Zpos p => binary_round prec emax s p 0
                         | _ => S754_zero s
                         end) == inject_Z (if s then - n else n)%Z).
      { destruct n as [|p|p]; try lia.
        - split; [reflexivity|]. destruct s; reflexivity.
        - assert (Dp : (Zpos (digits2_pos p) <= 53)%Z) by (apply digits2_le; lia).
          destruct (binary_round_exact s p Dp) as [mz [j [Eb [Hj Em]]]].
          rewrite Eb. split; [reflexivity|].
          rewrite value_magnitude.
          destruct s; [rewrite inject_Z_opp|];
            rewrite (magnitude_exact mz j (Zpos p) Hj Em); reflexivity. }
      destruct R as [R1 R2]. split; [exact R1|].
      exists (if s then - n else n)%Z. split; [exact R2|].
      rewrite value_magnitude. destruct s.
      * rewrite inject_Z_opp. apply nearest_away_opp; assumption.
      * apply nearest_away; assumption.
Qed.

(** What is not a finite number is returned as it is. *)
Lemma Round_not_finite x : finite x = false -> math.Round x = x.
Proof. destruct x; try discriminate; reflexivity. Qed.

End RoundNearest.

(** ** Dispatch and the error branch *)

Section Dispatch.

Lemma NewCalculator_kelly : NewCalculator MethodKelly = KellyCalculator.
Proof. reflexivity. Qed.

Lemma NewCalculator_proportional :
  NewCalculator MethodProportional = ProportionalCalculator.
Proof. reflexivity. Qed.

Lemma NewCalculator_default method :
  method <> MethodKelly -> method <> MethodProportional ->
  NewCalculator method = ArbitrageCalculator.
Proof.
  intros HK HP. unfold NewCalculator.
  apply String.eqb_neq in HK. apply String.eqb_neq in HP.
  rewrite HK, HP. reflexivity.
Qed.

Lemma Arbitrage_total input :
  exists r, ArbitrageCalculator_Calculate input = (Some r, None) /\
            rMethod r = MethodArbitrage.
Proof. unfold ArbitrageCalculator_Calculate. eexists. split; reflexivity. Qed.

Lemma Proportional_total input :
  exists r, ProportionalCalculator_Calculate input = (Some r, None) /\
            rMethod r = MethodProportional.
Proof. unfold ProportionalCalculator_Calculate. eexists. split; reflexivity. Qed.

Lemma Kelly_guard input :
  feq (ProbA input) 0 || feq (ProbB input) 0 = false ->
  exists r, KellyCalculator_Calculate input = (Some r, None) /\
            rMethod r = MethodKelly.
Proof.
  intro G. unfold KellyCalculator_Calculate. rewrite G.
  destruct (flt (TotalStake input) _); eexists; split; reflexivity.
Qed.

Lemma Kelly_total input :
  feq (ProbA input) 0 = false -> feq (ProbB input) 0 = false ->
  exists r, KellyCalculator_Calculate input = (Some r, None) /\
            rMethod r = MethodKelly.
Proof.
  intros HA HB. apply Kelly_guard. rewrite HA, HB. reflexivity.
Qed.

End Dispatch.

(** C7: whenever [ProbA] or [ProbB] is zero, the Kelly calculator returns
    an error and a nil result, so the caller receives no partial result;
    in particular this is so when both probabilities are zero. *)
Theorem Kelly_missing_probability_is_error input :
  feq (ProbA input) 0 = true \/ feq (ProbB input) 0 = true ->
  exists e, KellyCalculator_Calculate input = (None, Some e) /\
            Calculate (NewCalculator MethodKelly) input = (None, Some e).
Proof.
  intro H. rewrite NewCalculator_kelly. simpl.
  unfold KellyCalculator_Calculate.
  assert (G : feq (ProbA input) 0 || feq (ProbB input) 0 = true).
  { apply orb_true_iff. exact H. }
  rewrite G. eexists. split; reflexivity.
Qed.

Lemma Kelly_missing_probability_is_error_witness :
  exists e,
    KellyCalculator_Calculate
      (mkCalculationInput MethodKelly 2 2 1000 0 0 "A" "B" "$") = (None, Some e) /\
    Calculate (NewCalculator MethodKelly)
      (mkCalculationInput MethodKelly 2 2 1000 0 0 "A" "B" "$") = (None, Some e).
Proof.
  apply (Kelly_missing_probability_is_error
           (mkCalculationInput MethodKelly 2 2 1000 0 0 "A" "B" "$")).
  left. reflexivity.
Defined.

(** C8: every strategy identifier other than "kelly" and "proportional",
    an unrecognised one included, selects the arbitrage calculator, whose
    [Calculate] then returns a result with method "arbitrage" and no
    error. *)
Theorem unknown_method_defaults_to_arbitrage method input :
  method <> "kelly"%string -> method <> "proportional"%string ->
  NewCalculator method = ArbitrageCalculator /\
  exists r, Calculate (NewCalculator method) input = (Some r, None) /\
            rMethod r = "arbitrage"%string.
Proof.
  intros HK HP.
  rewrite (NewCalculator_default method HK HP). split; [reflexivity|].
  apply Arbitrage_total.
Qed.

Lemma unknown_method_defaults_to_arbitrage_witness :
  NewCalculator "unknown"%string = ArbitrageCalculator /\
  exists r, Calculate (NewCalculator "unknown"%string)
              (mkCalculationInput "unknown"%string 2 2 1000 0 0 "A" "B" "$") = (Some r, None) /\
            rMethod r = "arbitrage"%string.
Proof.
  apply (unknown_method_defaults_to_arbitrage "unknown"%string); discriminate.
Defined.

(** C10: on every input, validated or not, the arbitrage and the
    proportional calculator return a result and a nil error, also at the
    degenerate odds [oddsA + oddsB = 2] and at zero odds; an error can only
    come from the Kelly calculator. *)
Theorem only_Kelly_can_fail :
  (forall input, exists r, Calculate ArbitrageCalculator input = (Some r, None)) /\
  (forall input, exists r, Calculate ProportionalCalculator input = (Some r, None)) /\
  (exists r, Calculate ArbitrageCalculator
               (mkCalculationInput MethodArbitrage 1 1 1000 0 0 "A" "B" "$")
             = (Some r, None)) /\
  (exists r, Calculate ProportionalCalculator
               (mkCalculationInput MethodProportional 0 0 1000 0 0 "A" "B" "$")
             = (Some r, None)) /\
  (forall c input, snd (Calculate c input) <> None -> c = KellyCalculator) /\
  (exists input e, Calculate KellyCalculator input = (None, Some e)).
Proof.
  assert (A : forall input, exists r, Calculate ArbitrageCalculator input = (Some r, None)).
  { intro input. destruct (Arbitrage_total input) as [r [E _]]. exists r. exact E. }
  assert (P : forall input, exists r, Calculate ProportionalCalculator input = (Some r, None)).
  { intro input. destruct (Proportional_total input) as [r [E _]]. exists r. exact E. }
  repeat split; auto.
  - intros c input H. destruct c; [|reflexivity|].
    + destruct (A input) as [r E]. rewrite E in H. contradiction H. reflexivity.
    + destruct (P input) as [r E]. rewrite E in H. contradiction H. reflexivity.
  - exists (mkCalculationInput MethodKelly 2 2 1000 0 0 "A" "B" "$").
    eexists. reflexivity.
Qed.

Lemma only_Kelly_can_fail_witness :
  exists r,
    Calculate ArbitrageCalculator
      (mkCalculationInput MethodArbitrage 1 1 1000 0 0 "A" "B" "$") = (Some r, None).
Proof.
  apply (proj1 only_Kelly_can_fail).
Defined.

(** At the degenerate odds the results exist but hold no numbers: with
    [oddsA + oddsB = 2] the arbitrage stakes are [0/0], and with zero odds
    the proportional weights are infinite and their ratio is undefined. *)
Example degenerate_odds_give_NaN :
  (exists r, Calculate ArbitrageCalculator
               (mkCalculationInput MethodArbitrage 1 1 1000 0 0 "A" "B" "$")
             = (Some r, None) /\
             Stake (OptionA r) = math.NaN /\ Stake (OptionB r) = math.NaN) /\
  (exists r, Calculate ProportionalCalculator
               (mkCalculationInput MethodProportional 0 0 1000 0 0 "A" "B" "$")
             = (Some r, None) /\
             Stake (OptionA r) = math.NaN /\ Stake (OptionB r) = math.NaN).
Proof. split; eexists; repeat split; vm_compute; reflexivity. Qed.

(** ** The guaranteed-profit flag *)

Section Flag.

Lemma impliedProbability_pos odds :
  flt 0 odds = true -> impliedProbability odds = 1 / odds.
Proof.
  intro H. unfold impliedProbability.
  destruct (flt_true _ _ H) as [L _]. rewrite L. reflexivity.
Qed.

Lemma marketEfficiency_pos oddsA oddsB :
  flt 0 oddsA = true -> flt 0 oddsB = true ->
  marketEfficiency oddsA oddsB = 1 / oddsA + 1 / oddsB.
Proof.
  intros HA HB. unfold marketEfficiency.
  rewrite (impliedProbability_pos _ HA), (impliedProbability_pos _ HB). reflexivity.
Qed.

(** In each strategy the flag is the same expression of the odds. *)
Lemma GuaranteedProfit_eq c input r :
  Calculate c input = (Some r, None) ->
  GuaranteedProfit (rSummary r) = flt (marketEfficiency (OddsA input) (OddsB input)) 1.
Proof.
  destruct c; simpl.
  - unfold ArbitrageCalculator_Calculate. intro H. inversion H. reflexivity.
  - unfold KellyCalculator_Calculate.
    destruct (feq (ProbA input) 0 || feq (ProbB input) 0); [discriminate|].
    destruct (flt (TotalStake input) _); intro H; inversion H; reflexivity.
  - unfold ProportionalCalculator_Calculate. intro H. inversion H. reflexivity.
Qed.

End Flag.

(** C2: for every input with positive odds (valid odds are at least 1.01)
    and for each of the three strategies, the summary's [GuaranteedProfit]
    is true exactly when [1/oddsA + 1/oddsB < 1.0], the quotients, the sum
    and the comparison being the program's own, in [float64]; the flag
    depends on the odds only.  Each strategy does return a result:
    arbitrage and proportional always, Kelly once both probabilities are
    non-zero. *)
Theorem GuaranteedProfit_iff_market_below_one input :
  flt 0 (OddsA input) = true -> flt 0 (OddsB input) = true ->
  (forall method r,
      Calculate (NewCalculator method) input = (Some r, None) ->
      (GuaranteedProfit (rSummary r) = true <->
       flt (1 / OddsA input + 1 / OddsB input) 1 = true)) /\
  (forall method method' r r',
      Calculate (NewCalculator method) input = (Some r, None) ->
      Calculate (NewCalculator method') input = (Some r', None) ->
      GuaranteedProfit (rSummary r) = GuaranteedProfit (rSummary r')) /\
  (exists r, Calculate (NewCalculator MethodArbitrage) input = (Some r, None)) /\
  (exists r, Calculate (NewCalculator MethodProportional) input = (Some r, None)) /\
  (feq (ProbA input) 0 = false -> feq (ProbB input) 0 = false ->
   exists r, Calculate (NewCalculator MethodKelly) input = (Some r, None)).
Proof.
  intros HA HB. split; [|split; [|split; [|split]]].
  - intros method r H. rewrite (GuaranteedProfit_eq _ _ _ H).
    rewrite (marketEfficiency_pos _ _ HA HB). reflexivity.
  - intros method method' r r' H H'.
    rewrite (GuaranteedProfit_eq _ _ _ H), (GuaranteedProfit_eq _ _ _ H'). reflexivity.
  - destruct (Arbitrage_total input) as [r [E _]]. exists r. exact E.
  - destruct (Proportional_total input) as [r [E _]]. exists r. exact E.
  - intros PA PB. destruct (Kelly_total input PA PB) as [r [E _]]. exists r. exact E.
Qed.

Lemma GuaranteedProfit_iff_market_below_one_witness :
  let input := mkCalculationInput MethodKelly 2.1 3.5 1000 0.55 0.40
                 "Team A" "Team B" "$" in
  exists r, Calculate (NewCalculator MethodKelly) input = (Some r, None) /\
            GuaranteedProfit (rSummary r) = true.
Proof.
  intro input.
  assert (HA : flt 0 (OddsA input) = true) by reflexivity.
  assert (HB : flt 0 (OddsB input) = true) by reflexivity.
  destruct (GuaranteedProfit_iff_market_below_one input HA HB) as [F [_ [_ [_ K]]]].
  destruct K as [r E]; [reflexivity | reflexivity |].
  exists r. split; [exact E|].
  apply (F MethodKelly r E). reflexivity.
Defined.

(** The comparison is made on the rounded sum.  At odds 1.05 and 21 the
    two quotients add up to exactly 1.0 in [float64], and the flag is
    false; at odds 1.04 and 26 they add up to the value just below 1.0,
    and the flag is true. *)
Example GuaranteedProfit_at_the_boundary :
  1 / 1.05 + 1 / 21 = 1 /\
  (exists r, Calculate ArbitrageCalculator
               (mkCalculationInput MethodArbitrage 1.05 21 1000 0 0 "A" "B" "$")
             = (Some r, None) /\ GuaranteedProfit (rSummary r) = false) /\
  flt (1 / 1.04 + 1 / 26) 1 = true /\
  (exists r, Calculate ArbitrageCalculator
               (mkCalculationInput MethodArbitrage 1.04 26 1000 0 0 "A" "B" "$")
             = (Some r, None) /\ GuaranteedProfit (rSummary r) = true).
Proof.
  split; [vm_compute; reflexivity|].
  split; [eexists; split; vm_compute; reflexivity|].
  split; [vm_compute; reflexivity|].
  eexists; split; vm_compute; reflexivity.
Qed.

(** ** Arbitrage stakes *)

Section Arbitrage.

(** The stakes of the arbitrage calculator, as the code computes them. *)
Lemma Arbitrage_stakes input :
  exists r,
    Calculate ArbitrageCalculator input = (Some r, None) /\
    Stake (OptionA r) =
      round (TotalStake input * (OddsB input - 1) / (OddsA input + OddsB input - 2)) 2 /\
    Stake (OptionB r) =
      round (TotalStake input * (OddsA input - 1) / (OddsA input + OddsB input - 2)) 2.
Proof.
  simpl. unfold ArbitrageCalculator_Calculate.
  eexists. split; [reflexivity|]. split; reflexivity.
Qed.

End Arbitrage.

(** C1 (a defect of the code): the arbitrage stakes do not equalise the
    payouts.  At odds 2.5 and 3.0 and a total of 1000, an input the
    validator accepts and the repository's own test vector, the stakes
    are 571.43 and 428.57; they do sum to the total, but the payouts
    [stakeA*oddsA] and [stakeB*oddsB] are more than 142 apart, far beyond
    what rounding two stakes to the cent can explain, and the profits
    are 428.57 against 285.71.  At odds 4.0 and 1.5, which the validator
    accepts as well, the result is flagged as a guaranteed profit and yet
    loses 428.56 when the first option wins. *)
Theorem arbitrage_payouts_diverge :
  (let input := mkCalculationInput MethodArbitrage 2.5 3 1000 0 0 "A" "B" "$" in
   fle 1.01 (OddsA input) = true /\ fle 1.01 (OddsB input) = true /\
   flt 0 (TotalStake input) = true /\
   validator.ValidateCalculationInput input = None /\
   exists r,
     Calculate ArbitrageCalculator input = (Some r, None) /\
     Stake (OptionA r) =
       round (TotalStake input * (OddsB input - 1) / (OddsA input + OddsB input - 2)) 2 /\
     Stake (OptionB r) =
       round (TotalStake input * (OddsA input - 1) / (OddsA input + OddsB input - 2)) 2 /\
     Stake (OptionA r) = 571.43 /\ Stake (OptionB r) = 428.57 /\
     Stake (OptionA r) + Stake (OptionB r) = TotalStake input /\
     flt 142 (math.Abs (Stake (OptionA r) * OddsA input - Stake (OptionB r) * OddsB input))
       = true /\
     ReturnIfWins (OptionA r) = 1428.57 /\ ReturnIfWins (OptionB r) = 1285.71 /\
     ProfitIfWins (OptionA r) = 428.57 /\ ProfitIfWins (OptionB r) = 285.71) /\
  (let input := mkCalculationInput MethodArbitrage 4 1.5 1000 0 0 "A" "B" "$" in
   fle 1.01 (OddsA input) = true /\ fle 1.01 (OddsB input) = true /\
   flt 0 (TotalStake input) = true /\
   validator.ValidateCalculationInput input = None /\
   exists r,
     Calculate ArbitrageCalculator input = (Some r, None) /\
     Stake (OptionA r) = 142.86 /\ Stake (OptionB r) = 857.14 /\
     GuaranteedProfit (rSummary r) = true /\
     ProfitIfWins (OptionA r) = -428.56 /\ ProfitIfWins (OptionB r) = 285.71 /\
     MinProfit (rSummary r) = -428.56).
Proof.
  split; intro input.
  - split; [reflexivity|]. split; [reflexivity|]. split; [reflexivity|].
    split; [vm_compute; reflexivity|].
    eexists. split; [reflexivity|].
    repeat split; vm_compute; reflexivity.
  - split; [reflexivity|]. split; [reflexivity|]. split; [reflexivity|].
    split; [vm_compute; reflexivity|].
    eexists. split; [reflexivity|].
    repeat split; vm_compute; reflexivity.
Qed.

(** ** Proportional stakes *)

Section Proportional.

Variables oddsA oddsB totalStake : float64.
Hypothesis HA : flt 0 oddsA = true.
Hypothesis HB : flt 0 oddsB = true.
Hypothesis HT : flt 0 totalStake = true.

Let weightA := 1 / oddsA.
Let weightB := 1 / oddsB.
Let totalWeight := weightA + weightB.

Lemma weight_signed odds : flt 0 odds = true -> signed false (1 / odds).
Proof.
  intro H. change false with (xorb false false).
  apply fdiv_signed; [reflexivity | apply positive_signed, H].
Qed.


End Proportional.




(** ** Kelly stakes *)

Section Kelly.

Variables rawStakeA rawStakeB totalStake : float64.
Hypothesis HA : signed false rawStakeA.
Hypothesis HB : signed false rawStakeB.
Hypothesis HT : flt 0 totalStake = true.

Let totalRaw := rawStakeA + rawStakeB.
Let scale := totalStake / totalRaw.




End Kelly.




(** ** Where rounding happens *)

Section Rounding.

(** The fields of a result, read off the code of the strategy that
    built it: the stakes are rounded when they are computed, and every
    other amount is computed from those rounded stakes and rounded once
    more where the result is built. *)
Lemma result_fields c input r :
  Calculate c input = (Some r, None) ->
  let T := TotalStake input in
  let profitA := profitOf (Stake (OptionA r)) (OddsA input) T in
  let profitB := profitOf (Stake (OptionB r)) (OddsB input) T in
  (exists xA xB, Stake (OptionA r) = round xA 2 /\ Stake (OptionB r) = round xB 2) /\
  ReturnIfWins (OptionA r) = round (returnOf (Stake (OptionA r)) (OddsA input)) 2 /\
  ReturnIfWins (OptionB r) = round (returnOf (Stake (OptionB r)) (OddsB input)) 2 /\
  ProfitIfWins (OptionA r) = round profitA 2 /\
  ProfitIfWins (OptionB r) = round profitB 2 /\
  ROI (OptionA r) = round (profitA / T) 4 /\
  ROI (OptionB r) = round (profitB / T) 4 /\
  MinProfit (rSummary r) = round (math.Min profitA profitB) 2 /\
  MaxProfit (rSummary r) = round (math.Max profitA profitB) 2 /\
  MinROI (rSummary r) = round (math.Min profitA profitB / T) 4 /\
  MaxROI (rSummary r) = round (math.Max profitA profitB / T) 4 /\
  MarketEfficiency (rSummary r) = round (marketEfficiency (OddsA input) (OddsB input)) 4 /\
  (c <> KellyCalculator ->
   ExpectedValue (rSummary r) = round ((profitA + profitB) / 2) 2) /\
  (c = KellyCalculator ->
   let expectedValue := ProbA input * profitA + ProbB input * profitB in
   let probSum := ProbA input + ProbB input in
   ExpectedValue (rSummary r)
   = round (if flt probSum 1 then expectedValue + (1 - probSum) * (- T)
            else expectedValue) 2).
Proof.
  destruct c; cbn [Calculate].
  - unfold ArbitrageCalculator_Calculate. intro H. inversion H. clear H.
    cbn [Stake OptionA OptionB ReturnIfWins ProfitIfWins ROI rSummary MinProfit
         MaxProfit ExpectedValue MinROI MaxROI MarketEfficiency].
    repeat split; try reflexivity; eauto; try discriminate.
  - unfold KellyCalculator_Calculate.
    destruct (feq (ProbA input) 0 || feq (ProbB input) 0); [discriminate|].
    destruct (flt (TotalStake input) _); intro H; inversion H; clear H;
      cbn [Stake OptionA OptionB ReturnIfWins ProfitIfWins ROI rSummary MinProfit
           MaxProfit ExpectedValue MinROI MaxROI MarketEfficiency];
      (repeat split; try reflexivity; eauto; try congruence).
  - unfold ProportionalCalculator_Calculate. intro H. inversion H. clear H.
    cbn [Stake OptionA OptionB ReturnIfWins ProfitIfWins ROI rSummary MinProfit
         MaxProfit ExpectedValue MinROI MaxROI MarketEfficiency].
    repeat split; try reflexivity; eauto; try discriminate.
Qed.

End Rounding.

(** C9 (as amended): in every result, each monetary field (stakes,
    returns, profits, expected value, min/max profit) is a value of
    [round(_, 2)] and each ROI field and the market efficiency a value of
    [round(_, 4)], where [round(v, d)] is [math.Round(v * 10^d) / 10^d]
    computed in [float64]: the product is rounded to the nearest integer,
    halves away from zero, and what is not a finite number is passed on.
    The stakes are rounded where they are computed; the returns, profits,
    ROIs, the min/max fields and the expected value are computed from
    those already-rounded stakes and rounded once more where the result is
    built. *)
Theorem outputs_rounded_from_rounded_stakes c input r :
  Calculate c input = (Some r, None) ->
  let T := TotalStake input in
  let profitA := Stake (OptionA r) * OddsA input - T in
  let profitB := Stake (OptionB r) * OddsB input - T in
  (exists xA xB, Stake (OptionA r) = round xA 2 /\ Stake (OptionB r) = round xB 2) /\
  (ReturnIfWins (OptionA r) = round (Stake (OptionA r) * OddsA input) 2 /\
   ReturnIfWins (OptionB r) = round (Stake (OptionB r) * OddsB input) 2 /\
   ProfitIfWins (OptionA r) = round profitA 2 /\
   ProfitIfWins (OptionB r) = round profitB 2 /\
   ROI (OptionA r) = round (profitA / T) 4 /\
   ROI (OptionB r) = round (profitB / T) 4 /\
   MinProfit (rSummary r) = round (math.Min profitA profitB) 2 /\
   MaxProfit (rSummary r) = round (math.Max profitA profitB) 2 /\
   MinROI (rSummary r) = round (math.Min profitA profitB / T) 4 /\
   MaxROI (rSummary r) = round (math.Max profitA profitB / T) 4 /\
   MarketEfficiency (rSummary r)
   = round (marketEfficiency (OddsA input) (OddsB input)) 4) /\
  (c <> KellyCalculator ->
   ExpectedValue (rSummary r) = round ((profitA + profitB) / 2) 2) /\
  (c = KellyCalculator ->
   let expectedValue := ProbA input * profitA + ProbB input * profitB in
   let probSum := ProbA input + ProbB input in
   ExpectedValue (rSummary r)
   = round (if flt probSum 1 then expectedValue + (1 - probSum) * (- T)
            else expectedValue) 2) /\
  (forall val,
     round val 2 = math.Round (val * 100) / 100 /\
     round val 4 = math.Round (val * 10000) / 10000) /\
  (forall x, valid x = true -> finite x = true ->
     finite (math.Round x) = true /\
     exists z : Z,
       (value (math.Round x) == inject_Z z)%Q /\
       (Qabs (inject_Z z - value x) <= 1 # 2)%Q /\
       ((Qabs (inject_Z z - value x) == 1 # 2)%Q ->
        (Qabs (value x) < Qabs (inject_Z z))%Q)) /\
  (forall x, finite x = false -> math.Round x = x).
Proof.
  intros H T profitA profitB.
  destruct (result_fields c input r H)
    as [S [RA [RB [PA [PB [IA [IB [mP [MP [mR [MR [ME [EV EK]]]]]]]]]]]]].
  split; [exact S|]. split; [repeat split; assumption|].
  split; [exact EV|]. split; [exact EK|].
  split; [intro val; split; [apply round_2 | apply round_4]|].
  split; [apply Round_nearest_away | apply Round_not_finite].
Qed.

Lemma outputs_rounded_from_rounded_stakes_witness :
  exists r,
    Calculate ArbitrageCalculator
      (mkCalculationInput MethodArbitrage 5 10 5000 0 0 "Underdog A" "Underdog B" "$")
    = (Some r, None) /\
    ReturnIfWins (OptionA r) = round (Stake (OptionA r) * 5) 2 /\
    ProfitIfWins (OptionA r) = round (Stake (OptionA r) * 5 - 5000) 2.
Proof.
  eexists. split; [reflexivity|].
  destruct (outputs_rounded_from_rounded_stakes ArbitrageCalculator
              (mkCalculationInput MethodArbitrage 5 10 5000 0 0 "Underdog A" "Underdog B" "$")
              _ eq_refl) as [_ [[R [_ [P _]]] _]].
  split; [exact R | exact P].
Defined.

(** C9 (as stated) fails in its second half: the returns and profits are
    computed from the already-rounded stake.  At odds 5 and 10 and a total
    of 5000, a test vector of the repository, the unrounded stake on the
    first option is 3461.538..., the stake field is 3461.54, and
    [ReturnIfWins] is 17307.70 and [ProfitIfWins] 12307.70, where the
    unrounded stake would give 17307.69 and 12307.69. *)
Lemma return_uses_rounded_stake :
  let input := mkCalculationInput MethodArbitrage 5 10 5000 0 0
                 "Underdog A" "Underdog B" "$" in
  let unrounded :=
    TotalStake input * (OddsB input - 1) / (OddsA input + OddsB input - 2) in
  exists r,
    Calculate ArbitrageCalculator input = (Some r, None) /\
    within unrounded (45000 # 13) (1 # 1000000) /\
    Stake (OptionA r) = round unrounded 2 /\
    Stake (OptionA r) = 3461.54 /\
    ReturnIfWins (OptionA r) = 17307.7 /\
    ProfitIfWins (OptionA r) = 12307.7 /\
    round (unrounded * OddsA input) 2 = 17307.69 /\
    round (unrounded * OddsA input - TotalStake input) 2 = 12307.69 /\
    feq (ReturnIfWins (OptionA r)) (round (unrounded * OddsA input) 2) = false /\
    feq (ProfitIfWins (OptionA r))
        (round (unrounded * OddsA input - TotalStake input) 2) = false.
Proof.
  intros input unrounded.
  eexists. split; [reflexivity|].
  split; [split; [reflexivity | vm_compute; discriminate]|].
  repeat split; vm_compute; reflexivity.
Qed.

(** The rounding works on the binary value.  A decimal half that is not
    a value of the format has no reason to go away from zero: the value
    written 1.005 lies just below it and rounds to 1, and the payout
    571.43 * 2.5 lies just below 1428.575 and rounds to 1428.57; the
    half 0.125 is a value of the format and does go away from zero. *)
Example round_on_binary_values :
  round 1.005 2 = 1 /\
  round (571.43 * 2.5) 2 = 1428.57 /\
  round 0.015 2 = 0.02 /\
  round 0.125 2 = 0.13 /\ round (-0.125) 2 = -0.13 /\
  math.Round 0.5 = 1 /\ math.Round (-0.5) = -1 /\
  math.Round 2.5 = 3 /\ math.Round (-2.5) = -3 /\
  math.Round 0.49999999999999994 = 0.
Proof. repeat split; vm_compute; reflexivity. Qed.
(** ** The odds parser *)

Section ParserFacts.

Import parser.
Local Open Scope string_scope.

Variable ParseFloat : string -> float64 * option error.

Lemma ParseOdds_empty input :
  strings.TrimSpace input = EmptyString ->
  ParseOdds ParseFloat input = (0, Some "odds cannot be empty").
Proof. intro E. unfold ParseOdds. rewrite E. reflexivity. Qed.

Lemma ParseOdds_percentage input :
  strings.TrimSpace input <> EmptyString ->
  strings.HasSuffix (strings.TrimSpace input) "%" = true ->
  ParseOdds ParseFloat input = parsePercentage ParseFloat (strings.TrimSpace input).
Proof.
  intros N S. unfold ParseOdds.
  apply String.eqb_neq in N. rewrite N, S. reflexivity.
Qed.

Lemma ParseOdds_fractional input :
  strings.TrimSpace input <> EmptyString ->
  strings.HasSuffix (strings.TrimSpace input) "%" = false ->
  strings.Contains (strings.TrimSpace input) "/" = true ->
  ParseOdds ParseFloat input = parseFractional ParseFloat (strings.TrimSpace input).
Proof.
  intros N S C. unfold ParseOdds.
  apply String.eqb_neq in N. rewrite N, S, C. reflexivity.
Qed.

Lemma ParseOdds_american input :
  strings.TrimSpace input <> EmptyString ->
  strings.HasSuffix (strings.TrimSpace input) "%" = false ->
  strings.Contains (strings.TrimSpace input) "/" = false ->
  strings.HasPrefix (strings.TrimSpace input) "+"
  || strings.HasPrefix (strings.TrimSpace input) "-" = true ->
  ParseOdds ParseFloat input = parseAmerican ParseFloat (strings.TrimSpace input).
Proof.
  intros N S C P. unfold ParseOdds.
  apply String.eqb_neq in N. rewrite N, S, C, P. reflexivity.
Qed.

Lemma ParseOdds_decimal input :
  strings.TrimSpace input <> EmptyString ->
  strings.HasSuffix (strings.TrimSpace input) "%" = false ->
  strings.Contains (strings.TrimSpace input) "/" = false ->
  strings.HasPrefix (strings.TrimSpace input) "+"
  || strings.HasPrefix (strings.TrimSpace input) "-" = false ->
  ParseOdds ParseFloat input = parseDecimal ParseFloat (strings.TrimSpace input).
Proof.
  intros N S C P. unfold ParseOdds.
  apply String.eqb_neq in N. rewrite N, S, C, P. reflexivity.
Qed.

Lemma parsePercentage_value input p :
  ParseFloat (strings.TrimSpace (strings.TrimSuffix input "%")) = (p, None) ->
  (flt 0 p = true -> fle p 100 = true ->
   parsePercentage ParseFloat input = (100 / p, None)) /\
  (fle p 0 = true \/ flt 100 p = true ->
   exists e, parsePercentage ParseFloat input = (0, Some e)).
Proof.
  intro E. unfold parsePercentage. rewrite E. split.
  - intros L U. destruct (flt_true _ _ L) as [L' _]. apply fle_true in U.
    rewrite L', U. reflexivity.
  - intros [L|U].
    + rewrite L. eexists. reflexivity.
    + rewrite U. destruct (fle p 0); eexists; reflexivity.
Qed.

Lemma parseFractional_value input part0 part1 n d :
  strings.Split input "/" = [part0; part1] ->
  ParseFloat (strings.TrimSpace part0) = (n, None) ->
  ParseFloat (strings.TrimSpace part1) = (d, None) ->
  (feq d 0 = false -> fle 0 n = true -> fle 0 d = true ->
   parseFractional ParseFloat input = (n / d + 1, None)) /\
  (feq d 0 = true \/ flt n 0 = true \/ flt d 0 = true ->
   exists e, parseFractional ParseFloat input = (0, Some e)).
Proof.
  intros S E0 E1. unfold parseFractional. rewrite S, E0, E1. split.
  - intros Z N D. apply fle_true in N. apply fle_true in D.
    rewrite Z, N, D. reflexivity.
  - intros [Z|[N|D]].
    + rewrite Z. eexists. reflexivity.
    + rewrite N. destruct (feq d 0); eexists; reflexivity.
    + rewrite D, orb_true_r. destruct (feq d 0); eexists; reflexivity.
Qed.

Lemma parseAmerican_value input a :
  ParseFloat input = (a, None) ->
  (flt 0 a = true -> parseAmerican ParseFloat input = (a / 100 + 1, None)) /\
  (flt a 0 = true -> parseAmerican ParseFloat input = (100 / math.Abs a + 1, None)) /\
  (feq a 0 = true -> exists e, parseAmerican ParseFloat input = (0, Some e)).
Proof.
  intro E. unfold parseAmerican. rewrite E. repeat split.
  - intro P. destruct (flt_true _ _ P) as [_ [_ [_ [Z _]]]].
    rewrite Z, P. reflexivity.
  - intro N. destruct (flt_true _ _ N) as [_ [P [Z _]]].
    rewrite Z, P. reflexivity.
  - intro Z. rewrite Z. eexists. reflexivity.
Qed.

Lemma parseDecimal_value input odds :
  ParseFloat input = (odds, None) ->
  (fle 1 odds = true -> parseDecimal ParseFloat input = (odds, None)) /\
  (flt odds 1 = true -> exists e, parseDecimal ParseFloat input = (0, Some e)).
Proof.
  intro E. unfold parseDecimal. rewrite E. split.
  - intro L. apply fle_true in L. rewrite L. reflexivity.
  - intro L. rewrite L. eexists. reflexivity.
Qed.

End ParserFacts.

(** ** Syntactic shapes *)

Section Shapes.

Local Open Scope string_scope.

Lemma prefix_iff p s : String.prefix p s = true <-> exists t, s = p ++ t.
Proof.
  revert s. induction p as [|c p IH]; intro s.
  - split; [intros _; exists s; reflexivity | intros _; destruct s; reflexivity].
  - destruct s as [|a s]; simpl.
    + split; [discriminate | intros [t E]; discriminate].
    + destruct (Ascii.ascii_dec c a) as [->|N].
      * rewrite IH. split; intros [t E]; exists t; [rewrite E; reflexivity | congruence].
      * split; [discriminate | intros [t E]; congruence].
Qed.

Lemma HasPrefix_iff s p : strings.HasPrefix s p = true <-> exists t, s = p ++ t.
Proof. apply prefix_iff. Qed.

Lemma HasSuffix_iff s suffix :
  strings.HasSuffix s suffix = true <-> exists t, s = t ++ suffix.
Proof.
  induction s as [|c s IH]; cbn [strings.HasSuffix].
  - rewrite orb_false_r. split.
    + intro E. apply String.eqb_eq in E. exists EmptyString. exact E.
    + intros [t E]. destruct t; simpl in E; [apply String.eqb_eq; exact E | discriminate].
  - rewrite orb_true_iff, IH. split.
    + intros [E|[t E]].
      * apply String.eqb_eq in E. exists EmptyString. exact E.
      * exists (String c t). simpl. rewrite E. reflexivity.
    + intros [t E]. destruct t as [|a t]; simpl in E.
      * left. apply String.eqb_eq. exact E.
      * right. exists t. congruence.
Qed.

Lemma Contains_iff s substr :
  strings.Contains s substr = true <-> exists a b, s = a ++ substr ++ b.
Proof.
  induction s as [|c s IH]; cbn [strings.Contains].
  - rewrite orb_false_r, prefix_iff. split.
    + intros [t E]. exists EmptyString, t. exact E.
    + intros [a [b E]]. destruct a; simpl in E; [exists b; exact E | discriminate].
  - rewrite orb_true_iff, IH, prefix_iff. split.
    + intros [[t E]|[a [b E]]].
      * exists EmptyString, t. exact E.
      * exists (String c a), b. simpl. rewrite E. reflexivity.
    + intros [a [b E]]. destruct a as [|x a]; simpl in E.
      * left. exists b. exact E.
      * right. exists a, b. congruence.
Qed.

End Shapes.

Section ShapeTests.

Local Open Scope string_scope.

Lemma not_true_false (b : bool) (P : Prop) : (b = true <-> P) -> ~ P -> b = false.
Proof. intros I N. destruct b; [exfalso; apply N, I; reflexivity | reflexivity]. Qed.

Lemma trailing_percent_iff s : strings.HasSuffix s "%" = true <-> trailing_percent s.
Proof. apply HasSuffix_iff. Qed.

Lemma contains_slash_iff s : strings.Contains s "/" = true <-> contains_slash s.
Proof. apply Contains_iff. Qed.

Lemma leading_sign_iff s :
  strings.HasPrefix s "+" || strings.HasPrefix s "-" = true <-> leading_sign s.
Proof.
  rewrite orb_true_iff, !HasPrefix_iff. unfold leading_sign. split.
  - intros [[t E]|[t E]]; exists t; [left | right]; exact E.
  - intros [t [E|E]]; [left | right]; exists t; exact E.
Qed.

End ShapeTests.


(** C4: [ParseOdds] trims the input and dispatches on its shape in this
    order: a trailing [%] selects the percentage reader, else a [/] the
    fractional one, else a leading [+] or [-] the American one, else the
    decimal one.  A percentage [p] in (0,100] yields [100/p]; a fraction
    [n/d] with [d] non-zero and [n], [d] non-negative yields [n/d + 1]; an
    American value [a] yields [a/100 + 1] when positive, [100/|a| + 1] when
    negative and an error at zero; a decimal is returned as it is and is an
    error below 1.  With decimal literals read as numbers, "39%" gives
    100/39 (2.5641 within 1e-4), "3/2" gives 2.5, "+250" gives 3.5 and
    "-150" gives 100/150 + 1 (1.6667 within 1e-4). *)
Theorem ParseOdds_formats :
  (forall ParseFloat input,
      let s := strings.TrimSpace input in
      s <> EmptyString ->
      (trailing_percent s ->
       parser.ParseOdds ParseFloat input = parser.parsePercentage ParseFloat s) /\
      (~ trailing_percent s -> contains_slash s ->
       parser.ParseOdds ParseFloat input = parser.parseFractional ParseFloat s) /\
      (~ trailing_percent s -> ~ contains_slash s -> leading_sign s ->
       parser.ParseOdds ParseFloat input = parser.parseAmerican ParseFloat s) /\
      (~ trailing_percent s -> ~ contains_slash s -> ~ leading_sign s ->
       parser.ParseOdds ParseFloat input = parser.parseDecimal ParseFloat s)) /\
  (forall ParseFloat s p,
      ParseFloat (strings.TrimSpace (strings.TrimSuffix s "%")) = (p, None) ->
      flt 0 p = true -> fle p 100 = true ->
      parser.parsePercentage ParseFloat s = (100 / p, None)) /\
  (forall ParseFloat s part0 part1 n d,
      strings.Split s "/" = [part0; part1] ->
      ParseFloat (strings.TrimSpace part0) = (n, None) ->
      ParseFloat (strings.TrimSpace part1) = (d, None) ->
      feq d 0 = false -> fle 0 n = true -> fle 0 d = true ->
      parser.parseFractional ParseFloat s = (n / d + 1, None)) /\
  (forall ParseFloat s a,
      ParseFloat s = (a, None) ->
      (flt 0 a = true -> parser.parseAmerican ParseFloat s = (a / 100 + 1, None)) /\
      (flt a 0 = true ->
       parser.parseAmerican ParseFloat s = (100 / math.Abs a + 1, None)) /\
      (feq a 0 = true -> exists e, parser.parseAmerican ParseFloat s = (0, Some e))) /\
  (forall ParseFloat s odds,
      ParseFloat s = (odds, None) ->
      (fle 1 odds = true -> parser.parseDecimal ParseFloat s = (odds, None)) /\
      (flt odds 1 = true -> exists e, parser.parseDecimal ParseFloat s = (0, Some e))) /\
  (parser.ParseOdds strconv.ParseFloat_decimal "39%" = (100 / 39, None) /\
   within (100 / 39) 2.5641 0.0001) /\
  parser.ParseOdds strconv.ParseFloat_decimal "3/2" = (2.5, None) /\
  parser.ParseOdds strconv.ParseFloat_decimal "+250" = (3.5, None) /\
  (parser.ParseOdds strconv.ParseFloat_decimal "-150" = (100 / 150 + 1, None) /\
   within (100 / 150 + 1) 1.6667 0.0001).
Proof.
  split; [|split; [|split; [|split; [|split]]]].
  - intros ParseFloat input s N. repeat split.
    + intro P. apply ParseOdds_percentage; [exact N|].
      apply trailing_percent_iff, P.
    + intros P C. apply ParseOdds_fractional; [exact N| |].
      * apply (not_true_false _ _ (trailing_percent_iff s) P).
      * apply contains_slash_iff, C.
    + intros P C L. apply ParseOdds_american; [exact N| | |].
      * apply (not_true_false _ _ (trailing_percent_iff s) P).
      * apply (not_true_false _ _ (contains_slash_iff s) C).
      * apply leading_sign_iff, L.
    + intros P C L. apply ParseOdds_decimal; [exact N| | |].
      * apply (not_true_false _ _ (trailing_percent_iff s) P).
      * apply (not_true_false _ _ (contains_slash_iff s) C).
      * apply (not_true_false _ _ (leading_sign_iff s) L).
  - intros ParseFloat s p E. apply (parsePercentage_value ParseFloat s p E).
  - intros ParseFloat s part0 part1 n d S E0 E1.
    apply (parseFractional_value ParseFloat s part0 part1 n d S E0 E1).
  - intros ParseFloat s a E. apply (parseAmerican_value ParseFloat s a E).
  - intros ParseFloat s odds E. apply (parseDecimal_value ParseFloat s odds E).
  - split; [split; [vm_compute; reflexivity | split; [reflexivity | vm_compute; discriminate]]|].
    split; [vm_compute; reflexivity|].
    split; [vm_compute; reflexivity|].
    split; [vm_compute; reflexivity | split; [reflexivity | vm_compute; discriminate]].
Qed.

Lemma ParseOdds_formats_witness :
  parser.ParseOdds strconv.ParseFloat_decimal "  39%  "
  = parser.parsePercentage strconv.ParseFloat_decimal "39%" /\
  parser.parsePercentage strconv.ParseFloat_decimal "39%" = (100 / 39, None).
Proof.
  destruct ParseOdds_formats as [D [P _]]. split.
  - apply (D strconv.ParseFloat_decimal "  39%  "%string); [discriminate|].
    exists "39"%string. reflexivity.
  - apply (P strconv.ParseFloat_decimal "39%"%string 39); reflexivity.
Defined.
(** ** The validator *)

Section ValidatorFacts.

Import validator.

Lemma string_app_assoc (a b c : string) : ((a ++ b) ++ c = a ++ (b ++ c))%string.
Proof. induction a as [|x a IH]; simpl; [reflexivity | rewrite IH; reflexivity]. Qed.

Lemma string_app_nil_r (a : string) : (a ++ EmptyString = a)%string.
Proof. induction a as [|x a IH]; simpl; [reflexivity | rewrite IH; reflexivity]. Qed.

(** The loop writes the numbered lines after what the builder holds. *)
Lemma writeErrors_numbered sb i errs :
  writeErrors sb i errs = (sb ++ numbered_from (S i) errs)%string.
Proof.
  revert sb i. induction errs as [|err rest IH]; intros sb i; simpl.
  - symmetry. apply string_app_nil_r.
  - rewrite IH, string_app_assoc. unfold numbered_line.
    replace (i + 1)%nat with (S i) by lia. reflexivity.
Qed.

Lemma Error_none : Error {| Errors := [] |} = EmptyString.
Proof. reflexivity. Qed.

Lemma Error_single err : Error {| Errors := [err] |} = err.
Proof. reflexivity. Qed.

Lemma Error_multiple errs :
  (2 <= List.length errs)%nat ->
  Error {| Errors := errs |}
  = ("multiple validation errors:" ++ fmt.newline ++ numbered_from 1 errs)%string.
Proof.
  intro L. destruct errs as [|e1 [|e2 rest]]; simpl in L; try lia.
  unfold Error. cbn [Errors].
  rewrite writeErrors_numbered, string_app_assoc. reflexivity.
Qed.

(** Each conditional append adds the message of one check, when that
    check fails, behind the errors collected so far. *)
Lemma append_if (b : bool) (msg : string) (errs : list string) :
  (if b then append errs msg else errs) = errs ++ map snd (filter fst [(b, msg)]).
Proof. destruct b; simpl; [reflexivity | rewrite app_nil_r; reflexivity]. Qed.

Lemma append_ValidateOdds (pre : string) odds (errs : list string) :
  match ValidateOdds odds with
  | Some err => append errs (pre ++ err)%string
  | None => errs
  end
  = errs ++ map snd (filter fst
      [(flt odds 1.01, (pre ++ "odds must be >= 1.01, got: " ++ fmt.fixed 2 odds)%string)]).
Proof.
  unfold ValidateOdds.
  destruct (flt odds 1.01); [exact (append_if true _ errs) | exact (append_if false _ errs)].
Qed.

Lemma append_ValidateTotalStake total (errs : list string) :
  match ValidateTotalStake total with
  | Some err => append errs err
  | None => errs
  end
  = errs ++ map snd (filter fst
      [(fle total 0, ("total stake must be positive, got: " ++ fmt.fixed 2 total)%string)]).
Proof.
  unfold ValidateTotalStake.
  destruct (fle total 0); [exact (append_if true _ errs) | exact (append_if false _ errs)].
Qed.

Lemma append_ValidateProbability (pre : string) prob (errs : list string) :
  (if negb (feq prob 0) then
     match ValidateProbability prob with
     | Some err => append errs (pre ++ err)%string
     | None => errs
     end
   else errs)
  = errs ++ map snd (filter fst
      [(negb (feq prob 0) && (fle prob 0 || fle 1 prob),
        (pre ++ "probability must be between 0 and 1 (exclusive), got: "
             ++ fmt.fixed 4 prob)%string)]).
Proof.
  unfold ValidateProbability.
  destruct (negb (feq prob 0)); [|exact (append_if false _ errs)].
  destruct (fle prob 0 || fle 1 prob);
    [exact (append_if true _ errs) | exact (append_if false _ errs)].
Qed.

Lemma filtered_app (a b : list (bool * string)) :
  map snd (filter fst (a ++ b)) = map snd (filter fst a) ++ map snd (filter fst b).
Proof. rewrite filter_app, map_app. reflexivity. Qed.

Lemma finish_errs (errs : list string) :
  (if Nat.ltb 0 (List.length errs) then Some {| Errors := errs |} else None)
  = composite errs.
Proof. destruct errs; reflexivity. Qed.

(** The successive states of the slice [errs], one per statement of the
    source. *)
Let afterOddsA input (errs : list string) :=
  match ValidateOdds (OddsA input) with
  | Some err => append errs ("Option A: " ++ err)%string
  | None => errs
  end.
Let afterOddsB input (errs : list string) :=
  match ValidateOdds (OddsB input) with
  | Some err => append errs ("Option B: " ++ err)%string
  | None => errs
  end.
Let afterStake input (errs : list string) :=
  match ValidateTotalStake (TotalStake input) with
  | Some err => append errs err
  | None => errs
  end.
Let afterMissing input (errs : list string) :=
  if feq (ProbA input) 0 || feq (ProbB input) 0
  then append errs "Kelly method requires probability estimates for both options (use --prob-a and --prob-b)"%string
  else errs.
Let afterProbA input (errs : list string) :=
  if negb (feq (ProbA input) 0) then
    match ValidateProbability (ProbA input) with
    | Some err => append errs ("Option A probability: " ++ err)%string
    | None => errs
    end
  else errs.
Let afterProbB input (errs : list string) :=
  if negb (feq (ProbB input) 0) then
    match ValidateProbability (ProbB input) with
    | Some err => append errs ("Option B probability: " ++ err)%string
    | None => errs
    end
  else errs.
Let afterSum input (errs : list string) :=
  if flt 0 (ProbA input) && flt 0 (ProbB input) then
    if flt 1 (ProbA input + ProbB input)
    then append errs ("warning: probabilities sum to "
                        ++ fmt.fixed 4 (ProbA input + ProbB input) ++ " (> 1.0)")%string
    else errs
  else errs.
Let afterMethod input (errs : list string) :=
  if String.eqb (Method input) MethodKelly then
    afterSum input (afterProbB input (afterProbA input (afterMissing input errs)))
  else if String.eqb (Method input) MethodArbitrage
          || String.eqb (Method input) MethodProportional then errs
  else append errs ("invalid calculation method: " ++ Method input)%string.
Let afterMarket input (errs : list string) :=
  if flt 0 (OddsA input) && flt 0 (OddsB input) then
    if String.eqb (Method input) MethodArbitrage
       && fle 1 (1 / OddsA input + 1 / OddsB input)
    then append errs ("warning: combined implied probability ("
                        ++ fmt.fixed 2 ((1 / OddsA input + 1 / OddsB input) * 100)
                        ++ "%) >= 100% - no guaranteed profit")%string
    else errs
  else errs.

Lemma ValidateCalculationInput_stages input :
  ValidateCalculationInput input
  = composite (afterMarket input (afterMethod input
      (afterStake input (afterOddsB input (afterOddsA input []))))).
Proof. rewrite <- finish_errs. reflexivity. Qed.

Lemma afterOddsA_checks input errs :
  afterOddsA input errs = errs ++ map snd (filter fst [check_oddsA input]).
Proof. apply (append_ValidateOdds "Option A: "). Qed.

Lemma afterOddsB_checks input errs :
  afterOddsB input errs = errs ++ map snd (filter fst [check_oddsB input]).
Proof. apply (append_ValidateOdds "Option B: "). Qed.

Lemma afterStake_checks input errs :
  afterStake input errs = errs ++ map snd (filter fst [check_stake input]).
Proof. apply append_ValidateTotalStake. Qed.

Lemma afterMissing_checks input errs :
  afterMissing input errs = errs ++ map snd (filter fst [check_missing input]).
Proof. apply append_if. Qed.

Lemma afterProbA_checks input errs :
  afterProbA input errs = errs ++ map snd (filter fst [check_probA input]).
Proof. apply (append_ValidateProbability "Option A probability: "). Qed.

Lemma afterProbB_checks input errs :
  afterProbB input errs = errs ++ map snd (filter fst [check_probB input]).
Proof. apply (append_ValidateProbability "Option B probability: "). Qed.

Lemma afterSum_checks input errs :
  afterSum input errs = errs ++ map snd (filter fst [check_sum input]).
Proof.
  unfold afterSum, check_sum.
  destruct (flt 0 (ProbA input) && flt 0 (ProbB input));
    [apply append_if | exact (append_if false _ errs)].
Qed.

Lemma afterMethod_checks input errs :
  afterMethod input errs = errs ++ map snd (filter fst (checks_of_method input)).
Proof.
  unfold afterMethod, checks_of_method.
  destruct (String.eqb (Method input) MethodKelly).
  - rewrite afterSum_checks, afterProbB_checks, afterProbA_checks, afterMissing_checks.
    rewrite <- !app_assoc, <- !filtered_app. reflexivity.
  - destruct (String.eqb (Method input) MethodArbitrage
              || String.eqb (Method input) MethodProportional).
    + simpl. rewrite app_nil_r. reflexivity.
    + reflexivity.
Qed.

Lemma afterMarket_checks input errs :
  afterMarket input errs = errs ++ map snd (filter fst [check_market input]).
Proof.
  unfold afterMarket, check_market.
  destruct (flt 0 (OddsA input) && flt 0 (OddsB input));
    [apply append_if | exact (append_if false _ errs)].
Qed.

(** The slice the validator has built at its end holds the messages of
    exactly the failing checks, in the order of the checks. *)
Lemma ValidateCalculationInput_collects input :
  ValidateCalculationInput input = composite (failed_checks input).
Proof.
  rewrite ValidateCalculationInput_stages.
  rewrite afterMarket_checks, afterMethod_checks, afterStake_checks,
    afterOddsB_checks, afterOddsA_checks.
  unfold failed_checks, applicable_checks.
  rewrite <- !app_assoc, <- !filtered_app. reflexivity.
Qed.

End ValidatorFacts.

(** C6: [ValidateCalculationInput] runs every applicable check whatever
    the earlier ones found: the errors it returns are the messages of
    exactly the failing checks, in order.  When more than one check fails
    it returns one composite [ValidationError] whose message lists all of
    them, numbered; when exactly one fails, the returned error renders as
    that single message; when none fails it returns nil. *)
Theorem validator_accumulates_all_failures input :
  validator.ValidateCalculationInput input = composite (failed_checks input) /\
  (forall c, In c (applicable_checks input) -> fst c = true ->
     exists ve, validator.ValidateCalculationInput input = Some ve /\
                In (snd c) (validator.Errors ve)) /\
  (forall ve msg,
     validator.ValidateCalculationInput input = Some ve ->
     In msg (validator.Errors ve) ->
     exists c, In c (applicable_checks input) /\ fst c = true /\ snd c = msg) /\
  (failed_checks input = [] -> validator.ValidateCalculationInput input = None) /\
  (forall err, failed_checks input = [err] ->
     exists ve, validator.ValidateCalculationInput input = Some ve /\
                validator.Error ve = err) /\
  ((2 <= List.length (failed_checks input))%nat ->
     exists ve, validator.ValidateCalculationInput input = Some ve /\
                validator.Errors ve = failed_checks input /\
                validator.Error ve
                = ("multiple validation errors:" ++ fmt.newline
                     ++ numbered_from 1 (failed_checks input))%string).
Proof.
  assert (V := ValidateCalculationInput_collects input).
  split; [exact V|]. split; [|split; [|split; [|split]]].
  - intros c I F.
    assert (M : In (snd c) (failed_checks input)).
    { unfold failed_checks. apply in_map, filter_In. split; assumption. }
    rewrite V. destruct (failed_checks input) as [|e l] eqn:E; [contradiction|].
    eexists. split; [reflexivity | exact M].
  - intros ve msg S I. rewrite V in S.
    destruct (failed_checks input) as [|e l] eqn:E; [discriminate|].
    inversion S. subst ve. cbn [validator.Errors] in I. rewrite <- E in I.
    unfold failed_checks in I. apply in_map_iff in I. destruct I as [c [Sc Ic]].
    apply filter_In in Ic. destruct Ic as [Ic Fc].
    exists c. repeat split; assumption.
  - intro E. rewrite V, E. reflexivity.
  - intros err E. rewrite V, E. eexists. split; [reflexivity|].
    apply Error_single.
  - intro L. rewrite V.
    destruct (failed_checks input) as [|e l] eqn:E; [simpl in L; lia|].
    eexists. split; [reflexivity|]. split; [reflexivity|].
    apply Error_multiple. exact L.
Qed.

Lemma validator_accumulates_all_failures_witness :
  let input := mkCalculationInput MethodArbitrage 0.5 0.9 (-100) 0 0
                 "Option A" "Option B" "$" in
  exists ve,
    validator.ValidateCalculationInput input = Some ve /\
    List.length (validator.Errors ve) = 4%nat /\
    validator.Error ve
    = ("multiple validation errors:" ++ fmt.newline
         ++ numbered_from 1 (failed_checks input))%string.
Proof.
  intro input.
  destruct (validator_accumulates_all_failures input) as [_ [_ [_ [_ [_ M]]]]].
  destruct M as [ve [S [E R]]].
  - vm_compute. lia.
  - exists ve. split; [exact S|]. split; [rewrite E; reflexivity | exact R].
Defined.

(** The rendering on the repository's own test vector. *)
Example Error_three_errors :
  validator.Error (validator.mkValidationError ["error 1"; "error 2"; "error 3"]%string)
  = ("multiple validation errors:" ++ fmt.newline
       ++ "  1. error 1" ++ fmt.newline
       ++ "  2. error 2" ++ fmt.newline
       ++ "  3. error 3" ++ fmt.newline)%string.
Proof. reflexivity. Qed.


(** ** Test vectors of the repository

    The embedding agrees with the expectations of the repository's own
    tests on their inputs. *)

Section TestVectors.

Local Open Scope string_scope.

Let stakes (out : outcome) (stakeA stakeB : float64) : Prop :=
  match out with
  | (Some r, None) => Stake (OptionA r) = stakeA /\ Stake (OptionB r) = stakeB
  | _ => False
  end.

Let profits (out : outcome) (profitA profitB : float64) : Prop :=
  match out with
  | (Some r, None) =>
      ProfitIfWins (OptionA r) = profitA /\ ProfitIfWins (OptionB r) = profitB
  | _ => False
  end.

Let input (m : CalculationMethod) (oddsA oddsB total probA probB : float64) :=
  mkCalculationInput m oddsA oddsB total probA probB "A" "B" "$".

Ltac evaluated := vm_compute; repeat split; reflexivity.

Example arbitrage_equal_odds :
  stakes (Calculate ArbitrageCalculator (input MethodArbitrage 2 2 1000 0 0)) 500 500 /\
  profits (Calculate ArbitrageCalculator (input MethodArbitrage 2 2 1000 0 0)) 0 0.
Proof. split; evaluated. Qed.

Example arbitrage_different_odds :
  stakes (Calculate ArbitrageCalculator (input MethodArbitrage 2.5 3 1000 0 0))
    571.43 428.57 /\
  profits (Calculate ArbitrageCalculator (input MethodArbitrage 2.5 3 1000 0 0))
    428.57 285.71.
Proof. split; evaluated. Qed.

Example arbitrage_high_odds :
  stakes (Calculate ArbitrageCalculator (input MethodArbitrage 5 10 5000 0 0))
    3461.54 1538.46 /\
  profits (Calculate ArbitrageCalculator (input MethodArbitrage 5 10 5000 0 0))
    12307.7 10384.6.
Proof. split; evaluated. Qed.

Example proportional_different_odds :
  stakes (Calculate ProportionalCalculator (input MethodProportional 2.5 3 1000 0 0))
    545.45 454.55.
Proof. evaluated. Qed.

Example proportional_high_against_low :
  stakes (Calculate ProportionalCalculator (input MethodProportional 5 2 5000 0 0))
    1428.57 3571.43.
Proof. evaluated. Qed.

Example proportional_very_different_odds :
  stakes (Calculate ProportionalCalculator (input MethodProportional 10 1.5 2000 0 0))
    260.87 1739.13.
Proof. evaluated. Qed.

Example Kelly_no_edge :
  stakes (Calculate KellyCalculator (input MethodKelly 2 2 1000 0.5 0.5)) 0 0.
Proof. evaluated. Qed.

Example Kelly_normalization :
  stakes (Calculate KellyCalculator (input MethodKelly 2 2 1000 0.7 0.6)) 400 200.
Proof. evaluated. Qed.

Example Kelly_one_probability :
  fst (Calculate KellyCalculator (input MethodKelly 2 2 1000 0.5 0)) = None.
Proof. evaluated. Qed.

Example ParseOdds_spaces :
  parser.ParseOdds strconv.ParseFloat_decimal "  2.5  " = (2.5, None) /\
  parser.ParseOdds strconv.ParseFloat_decimal " 3 / 2 "
  = parser.ParseOdds strconv.ParseFloat_decimal "3/2".
Proof. split; evaluated. Qed.

Example ParseOdds_errors :
  parser.ParseOdds strconv.ParseFloat_decimal "0%"
  = (0, Some "percentage must be > 0, got: 0%") /\
  parser.ParseOdds strconv.ParseFloat_decimal "-10%"
  = (0, Some "percentage must be > 0, got: -10%") /\
  parser.ParseOdds strconv.ParseFloat_decimal "150%"
  = (0, Some "percentage must be <= 100, got: 150%") /\
  parser.ParseOdds strconv.ParseFloat_decimal "3/0"
  = (0, Some "denominator cannot be zero in '3/0'") /\
  parser.ParseOdds strconv.ParseFloat_decimal "+0"
  = (0, Some "American odds cannot be zero") /\
  parser.ParseOdds strconv.ParseFloat_decimal "0.5"
  = (0, Some "decimal odds must be >= 1.0, got: 0.5").
Proof. repeat split; evaluated. Qed.

(** White space beyond ASCII is trimmed as well: here a no-break space
    (U+00A0) before the odds and an em space (U+2003) after them. *)
Example ParseOdds_unicode_spaces :
  parser.ParseOdds strconv.ParseFloat_decimal
    (strings.bytes [194; 160]%nat ++ "2.5" ++ strings.bytes [226; 128; 131]%nat)
  = (2.5, None).
Proof. evaluated. Qed.

Example Validate_valid_inputs :
  validator.ValidateCalculationInput (input MethodArbitrage 2.56 3.85 10000 0 0) = None /\
  validator.ValidateCalculationInput (input MethodKelly 2.1 3.5 1000 0.55 0.40) = None /\
  validator.ValidateCalculationInput (input MethodProportional 2 3 500 0 0) = None.
Proof. repeat split; evaluated. Qed.

Example Validate_single_errors :
  option_map validator.Error
    (validator.ValidateCalculationInput (input MethodKelly 2 2 1000 0.7 0.6))
  = Some "warning: probabilities sum to 1.3000 (> 1.0)" /\
  option_map validator.Error
    (validator.ValidateCalculationInput (input "invalid" 2 2 1000 0 0))
  = Some "invalid calculation method: invalid" /\
  option_map validator.Error
    (validator.ValidateCalculationInput (input MethodArbitrage 2 2 1000 0 0))
  = Some "warning: combined implied probability (100.00%) >= 100% - no guaranteed profit".
Proof. repeat split; evaluated. Qed.

(** A NaN among the odds passes every comparison of the validator, which
    reports no error. *)
Example Validate_NaN_odds :
  validator.ValidateCalculationInput (input MethodProportional math.NaN 2 1000 0 0)
  = None.
Proof. evaluated. Qed.

End TestVectors.

(** * Further properties *)

(** ** Rounding never invents a NaN *)

Section NoNaN.

Local Open Scope Z_scope.

Lemma shr_1_nonneg mrs : 0 <= shr_m mrs -> 0 <= shr_m (shr_1 mrs).
Proof.
  destruct mrs as [m r s]. simpl.
  destruct m as [|[p|p|]|[p|p|]]; simpl; lia.
Qed.

Lemma iter_pos_invariant {A : Type} (P : A -> Prop) (f : A -> A) :
  (forall x, P x -> P (f x)) -> forall p x, P x -> P (iter_pos f p x).
Proof.
  intro H. induction p as [p IH|p IH|]; intros x Hx; simpl.
  - apply IH, IH, H, Hx.
  - apply IH, IH, Hx.
  - apply H, Hx.
Qed.

Lemma shr_nonneg mrs e n : 0 <= shr_m mrs -> 0 <= shr_m (fst (shr mrs e n)).
Proof.
  intro H. unfold shr. destruct n as [|p|p]; simpl; try exact H.
  apply (iter_pos_invariant (fun x => 0 <= shr_m x) shr_1 shr_1_nonneg), H.
Qed.

Lemma shr_fexp_nonneg m e l :
  0 <= m -> 0 <= shr_m (fst (shr_fexp prec emax m e l)).
Proof.
  intro H. unfold shr_fexp. apply shr_nonneg.
  destruct l as [|[| |]]; simpl; exact H.
Qed.

Lemma round_nearest_even_nonneg m l : 0 <= m -> 0 <= round_nearest_even m l.
Proof.
  intro H. unfold round_nearest_even.
  destruct l as [|[| |]]; try lia. destruct (Z.even m); lia.
Qed.

Lemma binary_round_aux_number s m e l :
  0 <= m -> number (binary_round_aux prec emax s m e l) = true.
Proof.
  intro H. unfold binary_round_aux.
  assert (H1 := shr_fexp_nonneg m e l H).
  destruct (shr_fexp prec emax m e l) as [mrs' e']. simpl in H1.
  assert (H2 := shr_fexp_nonneg _ e' loc_Exact
                  (round_nearest_even_nonneg _ (loc_of_shr_record mrs') H1)).
  destruct (shr_fexp prec emax _ e' loc_Exact) as [mrs'' e'']. simpl in H2.
  destruct (shr_m mrs'') as [|p|p]; [reflexivity | | lia].
  destruct (e'' <=? emax - prec); reflexivity.
Qed.

Lemma binary_round_number s m e : number (binary_round prec emax s m e) = true.
Proof.
  unfold binary_round. destruct (shl_align m e _) as [mz ez].
  apply binary_round_aux_number. lia.
Qed.

End NoNaN.

Section Numbers.

(** The quotient of one by a number above zero is a number, and so is
    the sum of two numbers that are not below zero. *)
Lemma reciprocal_number x : flt 0 x = true -> number (1 / x) = true.
Proof.
  destruct x as [s|[|]| |[|] m e]; intro H; try discriminate H; try reflexivity.
  unfold fdiv. cbn [SFdiv of_decimal].
  change (1%float64) with (S754_finite false 4503599627370496 (-52)).
  cbn [SFdiv].
  destruct (SFdiv_core_binary prec emax _ _ _ _) as [[mz ez] lz] eqn:E.
  apply binary_round_aux_number.
  unfold SFdiv_core_binary in E.
  destruct (Z.div_eucl _ _) as [q r] eqn:D in E. inversion E. subst mz.
  assert (Q := Z.div_eucl_eq).
  match type of D with Z.div_eucl ?a ?b = _ =>
    assert (A : (0 <= a)%Z);
    [| assert (B := Z_div_mod a b ltac:(lia)); rewrite D in B;
       destruct B as [B1 B2]; nia ]
  end.
  match goal with |- (0 <= match ?s with _ => _ end)%Z => destruct s end; try lia.
  apply Z.shiftl_nonneg. lia.
Qed.

Lemma fadd_number x y :
  signed false x -> signed false y -> number x = true -> number y = true ->
  number (x + y) = true.
Proof.
  unfold fadd.
  destruct x as [s1|s1| |s1 m1 e1], y as [s2|s2| |s2 m2 e2]; simpl;
    intros Hx Hy Nx Ny; subst; try discriminate; try reflexivity.
  destruct (shl_align m1 e1 (Z.min e1 e2)) as [a ea].
  destruct (shl_align m2 e2 (Z.min e1 e2)) as [b eb]. simpl.
  apply binary_round_number.
Qed.

(** A number that 1.0 is not at most of is below 1.0. *)
Lemma number_not_ge_lt x y :
  number x = true -> number y = true -> fle y x = false -> flt x y = true.
Proof.
  unfold fle, flt, SFleb, SFltb. rewrite (SFcompare_antisym x y).
  destruct x as [s1|s1| |s1 m1 e1], y as [s2|s2| |s2 m2 e2];
    try discriminate; intros _ _;
    destruct (SFcompare _ _) as [[| |]|] eqn:E; simpl; try discriminate;
    try reflexivity; simpl in E; try discriminate;
    try (destruct s1; discriminate); try (destruct s2; discriminate);
    try (destruct s1, s2; discriminate).
Qed.

(** Odds of at least 1.01 are above zero. *)
Lemma valid_odds_positive odds : fle 1.01 odds = true -> flt 0 odds = true.
Proof.
  destruct odds as [s|[|]| |[|] m e]; intro H; try discriminate H; reflexivity.
Qed.

End Numbers.

(** ** The validator: what it lets through *)

Section Acceptance.

Lemma filtered_nil (l : list check) :
  map snd (filter fst l) = [] <-> forallb (fun c => negb (fst c)) l = true.
Proof.
  induction l as [|[b m] l IH]; simpl; [tauto|].
  destruct b; simpl; [split; discriminate | exact IH].
Qed.

Lemma composite_None errs : composite errs = None <-> errs = [].
Proof. destruct errs; simpl; split; congruence. Qed.

Lemma accepted_iff_no_failure input :
  validator.ValidateCalculationInput input = None <->
  forallb (fun c => negb (fst c)) (applicable_checks input) = true.
Proof.
  rewrite ValidateCalculationInput_collects, composite_None.
  apply filtered_nil.
Qed.

(** What an accepted input has passed. *)
Lemma accepted_checks input :
  validator.ValidateCalculationInput input = None ->
  flt (OddsA input) 1.01 = false /\ flt (OddsB input) 1.01 = false /\
  fle (TotalStake input) 0 = false /\
  forallb (fun c => negb (fst c)) (checks_of_method input) = true /\
  fst (check_market input) = false.
Proof.
  intro V. apply accepted_iff_no_failure in V.
  unfold applicable_checks in V. rewrite !forallb_app in V.
  apply andb_true_iff in V. destruct V as [V1 V2].
  apply andb_true_iff in V2. destruct V2 as [V2 V3].
  cbn [forallb check_oddsA check_oddsB check_stake fst] in V1.
  apply andb_true_iff in V1. destruct V1 as [A V1].
  apply andb_true_iff in V1. destruct V1 as [B V1].
  apply andb_true_iff in V1. destruct V1 as [T _].
  cbn [forallb] in V3. apply andb_true_iff in V3. destruct V3 as [M _].
  apply negb_true_iff in A, B, T, M.
  repeat split; assumption.
Qed.

Lemma accepted_method input :
  validator.ValidateCalculationInput input = None ->
  (Method input = MethodKelly /\
   feq (ProbA input) 0 || feq (ProbB input) 0 = false) \/
  Method input = MethodArbitrage \/ Method input = MethodProportional.
Proof.
  intro V. destruct (accepted_checks input V) as [_ [_ [_ [C _]]]].
  unfold checks_of_method in C.
  destruct (String.eqb (Method input) MethodKelly) eqn:K.
  - left. apply String.eqb_eq in K. split; [exact K|].
    cbn [forallb check_missing fst] in C.
    apply andb_true_iff in C. destruct C as [C _].
    apply negb_true_iff in C. exact C.
  - right.
    destruct (String.eqb (Method input) MethodArbitrage) eqn:A.
    + left. apply String.eqb_eq, A.
    + destruct (String.eqb (Method input) MethodProportional) eqn:P.
      * right. apply String.eqb_eq, P.
      * discriminate C.
Qed.

End Acceptance.

(** X1: an input that [ValidateCalculationInput] accepts never makes the
    calculator selected by its method fail: [Calculate] returns a result
    for the method asked for, and no error. *)
Theorem validated_input_always_calculates input :
  validator.ValidateCalculationInput input = None ->
  exists r, Calculate (NewCalculator (Method input)) input = (Some r, None) /\
            rMethod r = Method input.
Proof.
  intro V. destruct (accepted_method input V) as [[K G]|[A|P]].
  - rewrite K. rewrite NewCalculator_kelly. apply Kelly_guard, G.
  - rewrite A. apply Arbitrage_total.
  - rewrite P. rewrite NewCalculator_proportional. apply Proportional_total.
Qed.

Lemma validated_input_always_calculates_witness :
  exists r,
    Calculate (NewCalculator MethodKelly)
      (mkCalculationInput MethodKelly 2.1 3.5 1000 0.55 0.40 "Team A" "Team B" "$")
    = (Some r, None) /\ rMethod r = MethodKelly.
Proof.
  apply (validated_input_always_calculates
           (mkCalculationInput MethodKelly 2.1 3.5 1000 0.55 0.40 "Team A" "Team B" "$")).
  vm_compute. reflexivity.
Defined.

Section Accepted.

Lemma number_not_lt_ge x y :
  number x = true -> number y = true -> flt x y = false -> fle y x = true.
Proof.
  unfold fle, flt, SFleb, SFltb. rewrite (SFcompare_antisym x y).
  destruct x as [s1|s1| |s1 m1 e1], y as [s2|s2| |s2 m2 e2];
    try discriminate; intros _ _;
    destruct (SFcompare _ _) as [[| |]|] eqn:E; simpl; try discriminate;
    try reflexivity; simpl in E; try discriminate;
    try (destruct s1; discriminate); try (destruct s2; discriminate);
    try (destruct s1, s2; discriminate).
Qed.

Lemma accepted_odds_positive odds :
  number odds = true -> flt odds 1.01 = false -> flt 0 odds = true.
Proof.
  intros N L. apply valid_odds_positive.
  apply number_not_lt_ge; [exact N | reflexivity | exact L].
Qed.

End Accepted.

(** X2: on an arbitrage input whose odds are numbers and which the
    validator accepts, the result is always flagged as a guaranteed
    profit: the validator's market check and the flag of the calculator
    agree. *)
Theorem validated_arbitrage_reports_guaranteed_profit input :
  Method input = MethodArbitrage ->
  number (OddsA input) = true -> number (OddsB input) = true ->
  validator.ValidateCalculationInput input = None ->
  exists r, Calculate (NewCalculator (Method input)) input = (Some r, None) /\
            GuaranteedProfit (rSummary r) = true.
Proof.
  intros M NA NB V.
  destruct (accepted_checks input V) as [A [B [_ [_ C]]]].
  assert (PA := accepted_odds_positive _ NA A).
  assert (PB := accepted_odds_positive _ NB B).
  destruct (Arbitrage_total input) as [r [E _]].
  rewrite M. exists r. split; [exact E|].
  rewrite (GuaranteedProfit_eq ArbitrageCalculator input r E).
  rewrite (marketEfficiency_pos _ _ PA PB).
  unfold check_market in C. cbn [fst] in C.
  rewrite PA, PB, M in C. cbn [andb] in C.
  change (String.eqb MethodArbitrage MethodArbitrage) with true in C. cbn [andb] in C.
  apply number_not_ge_lt; [|reflexivity | exact C].
  apply fadd_number; try apply weight_signed; try apply reciprocal_number; assumption.
Qed.

Lemma validated_arbitrage_reports_guaranteed_profit_witness :
  exists r,
    Calculate (NewCalculator MethodArbitrage)
      (mkCalculationInput MethodArbitrage 2.56 3.85 10000 0 0 "A" "B" "$")
    = (Some r, None) /\ GuaranteedProfit (rSummary r) = true.
Proof.
  apply (validated_arbitrage_reports_guaranteed_profit
           (mkCalculationInput MethodArbitrage 2.56 3.85 10000 0 0 "A" "B" "$"));
    vm_compute; reflexivity.
Defined.

Section NaNOdds.

Lemma fdiv_NaN_r x : x / math.NaN = math.NaN.
Proof. destruct x; reflexivity. Qed.

Lemma fdiv_NaN_l x : math.NaN / x = math.NaN.
Proof. destruct x; reflexivity. Qed.

Lemma fmul_NaN_r x : x * math.NaN = math.NaN.
Proof. destruct x; reflexivity. Qed.

Lemma fadd_NaN_l x : math.NaN + x = math.NaN.
Proof. destruct x; reflexivity. Qed.

Lemma fadd_NaN_r x : x + math.NaN = math.NaN.
Proof. destruct x; reflexivity. Qed.

Lemma fsub_NaN_l x : math.NaN - x = math.NaN.
Proof. destruct x; reflexivity. Qed.

Lemma round_NaN : round math.NaN 2 = math.NaN.
Proof. reflexivity. Qed.

End NaNOdds.

(** X3: a NaN among the odds passes validation, and the stakes computed
    from it are NaN.  Every comparison with NaN is false, so neither the
    odds floor nor the market check fires: an arbitrage or proportional
    input with a NaN for [OddsA], odds [OddsB] not below 1.01 and a total
    not at or below zero is accepted, and both stakes of the result are
    NaN. *)
Theorem NaN_odds_pass_validation input :
  Method input = MethodArbitrage \/ Method input = MethodProportional ->
  OddsA input = math.NaN ->
  flt (OddsB input) 1.01 = false -> fle (TotalStake input) 0 = false ->
  validator.ValidateCalculationInput input = None /\
  exists r, Calculate (NewCalculator (Method input)) input = (Some r, None) /\
            Stake (OptionA r) = math.NaN /\ Stake (OptionB r) = math.NaN.
Proof.
  intros M A B T. split.
  - apply accepted_iff_no_failure.
    unfold applicable_checks, checks_of_method, check_oddsA, check_oddsB,
      check_stake, check_market.
    rewrite A, B, T.
    destruct M as [M|M]; rewrite M; reflexivity.
  - destruct M as [M|M]; rewrite M.
    + eexists. split; [reflexivity|].
      cbn [Stake OptionA OptionB]. rewrite A.
      rewrite ?fadd_NaN_l, ?fsub_NaN_l, ?fmul_NaN_r, ?fdiv_NaN_r.
      split; apply round_NaN.
    + eexists. split; [reflexivity|].
      cbn [Stake OptionA OptionB]. rewrite A.
      rewrite ?fdiv_NaN_r, ?fadd_NaN_l, ?fdiv_NaN_r, ?fmul_NaN_r.
      split; apply round_NaN.
Qed.

Lemma NaN_odds_pass_validation_witness :
  validator.ValidateCalculationInput
    (mkCalculationInput MethodProportional math.NaN 2 1000 0 0 "A" "B" "$") = None /\
  exists r,
    Calculate (NewCalculator MethodProportional)
      (mkCalculationInput MethodProportional math.NaN 2 1000 0 0 "A" "B" "$")
    = (Some r, None) /\
    Stake (OptionA r) = math.NaN /\ Stake (OptionB r) = math.NaN.
Proof.
  apply (NaN_odds_pass_validation
           (mkCalculationInput MethodProportional math.NaN 2 1000 0 0 "A" "B" "$"));
    try reflexivity.
  right. reflexivity.
Defined.

(** ** The validator: its error *)

Section ValidatorError.

Local Open Scope string_scope.

Lemma check_message_not_empty input c :
  In c (applicable_checks input) -> snd c <> EmptyString.
Proof.
  unfold applicable_checks, checks_of_method. intro H.
  apply in_app_or in H. destruct H as [H|H].
  - simpl in H. destruct H as [<-|[<-|[<-|[]]]]; simpl; discriminate.
  - apply in_app_or in H. destruct H as [H|H].
    + destruct (String.eqb (Method input) MethodKelly).
      * simpl in H. destruct H as [<-|[<-|[<-|[<-|[]]]]]; simpl; discriminate.
      * destruct (String.eqb (Method input) MethodArbitrage
                  || String.eqb (Method input) MethodProportional).
        -- contradiction.
        -- simpl in H. destruct H as [<-|[]]. simpl. discriminate.
    + simpl in H. destruct H as [<-|[]]. simpl. discriminate.
Qed.

Lemma failed_message_not_empty input msg :
  In msg (failed_checks input) -> msg <> EmptyString.
Proof.
  unfold failed_checks. intro H. apply in_map_iff in H.
  destruct H as [c [<- I]]. apply filter_In in I. destruct I as [I _].
  apply (check_message_not_empty input c I).
Qed.

End ValidatorError.

(** X4: an error returned by [ValidateCalculationInput] always holds at
    least one cause, none of its causes has an empty message, and its own
    message is never empty: the empty rendering of [ValidationError.Error]
    cannot come out of the validator. *)
Theorem ValidateCalculationInput_error_not_empty input ve :
  validator.ValidateCalculationInput input = Some ve ->
  validator.Errors ve <> [] /\
  (forall msg, In msg (validator.Errors ve) -> msg <> EmptyString) /\
  validator.Error ve <> EmptyString.
Proof.
  intro V. rewrite ValidateCalculationInput_collects in V.
  assert (N := failed_message_not_empty input).
  destruct (failed_checks input) as [|e1 rest] eqn:F; [discriminate|].
  simpl in V. inversion V. subst ve. clear V. cbn [validator.Errors].
  split; [discriminate|]. split; [exact N|].
  destruct rest as [|e2 rest].
  - rewrite Error_single. apply N. left. reflexivity.
  - rewrite Error_multiple by (simpl; lia). simpl. discriminate.
Qed.

Lemma ValidateCalculationInput_error_not_empty_witness :
  exists ve,
    validator.ValidateCalculationInput
      (mkCalculationInput MethodKelly 2 2 1000 0 0 "A" "B" "$") = Some ve /\
    validator.Error ve <> EmptyString.
Proof.
  eexists. split; [vm_compute; reflexivity|].
  apply (ValidateCalculationInput_error_not_empty
           (mkCalculationInput MethodKelly 2 2 1000 0 0 "A" "B" "$")).
  vm_compute. reflexivity.
Defined.

(** ** The parser: fractions *)

Section Fractions.

Local Open Scope string_scope.

Lemma Split_length s sep : List.length (strings.Split s sep) = S (count_byte sep s).
Proof.
  induction s as [|c s IH]; simpl; [reflexivity|].
  destruct (strings.Split s sep) as [|p ps] eqn:E; simpl in IH; [discriminate|].
  destruct (Ascii.eqb c sep); simpl; lia.
Qed.

Lemma count_byte_Contains sep s :
  (1 <= count_byte sep s)%nat -> strings.Contains s (String sep EmptyString) = true.
Proof.
  induction s as [|c s IH]; simpl; intro H; [lia|].
  destruct (Ascii.eqb c sep) eqn:E.
  - apply Ascii.eqb_eq in E. subst c.
    destruct (Ascii.ascii_dec sep sep) as [_|N]; [|contradiction].
    destruct s; reflexivity.
  - rewrite (IH H). apply orb_true_r.
Qed.

Lemma parseFractional_slashes ParseFloat input :
  count_byte "/" input <> 1%nat ->
  parser.parseFractional ParseFloat input
  = (0, Some ("invalid fractional odds '" ++ input ++ "'")).
Proof.
  intro H. unfold parser.parseFractional.
  assert (L := Split_length input "/").
  destruct (strings.Split input "/") as [|p0 [|p1 [|p2 rest]]]; simpl in L;
    try reflexivity.
  exfalso. apply H. lia.
Qed.

End Fractions.

(** X5: odds text that (once trimmed) does not end in [%] and holds two or
    more slashes is rejected as invalid fractional odds, whatever its parts
    are; the fractional reader accepts nothing but exactly one slash. *)
Theorem ParseOdds_rejects_several_slashes ParseFloat input :
  ~ trailing_percent (strings.TrimSpace input) ->
  (2 <= count_byte "/" (strings.TrimSpace input))%nat ->
  parser.ParseOdds ParseFloat input
  = (0, Some ("invalid fractional odds '" ++ strings.TrimSpace input ++ "'")%string).
Proof.
  intros P C.
  rewrite ParseOdds_fractional.
  - apply parseFractional_slashes. lia.
  - intro E. rewrite E in C. simpl in C. lia.
  - apply (not_true_false _ _ (trailing_percent_iff _) P).
  - apply (count_byte_Contains "/"). lia.
Qed.

Lemma ParseOdds_rejects_several_slashes_witness :
  parser.ParseOdds strconv.ParseFloat_decimal "1/2/3"
  = (0, Some "invalid fractional odds '1/2/3'"%string).
Proof.
  apply (ParseOdds_rejects_several_slashes strconv.ParseFloat_decimal "1/2/3"%string).
  - intros [t E]. vm_compute in E.
    destruct t as [|a [|b [|c [|d [|e t]]]]]; simpl in E; try discriminate.
    destruct t; discriminate.
  - vm_compute. lia.
Defined.

(** ** The two options are treated alike *)

Section Symmetry.

Lemma fadd_comm x y : x + y = y + x.
Proof.
  unfold fadd.
  destruct x as [s1|s1| |s1 m1 e1], y as [s2|s2| |s2 m2 e2]; simpl;
    try reflexivity; try (destruct s1, s2; reflexivity).
  rewrite (Z.min_comm e2 e1). f_equal. apply Z.add_comm.
Qed.

(** Two finite values that compare equal are the same value, unless both
    are zeros. *)
Lemma SFcompare_Eq_finite s1 m1 e1 s2 m2 e2 :
  SFcompare (S754_finite s1 m1 e1) (S754_finite s2 m2 e2) = Some Eq ->
  S754_finite s1 m1 e1 = S754_finite s2 m2 e2.
Proof.
  simpl. destruct s1, s2; try discriminate;
    destruct (e1 ?= e2)%Z eqn:E; try discriminate;
    apply Z.compare_eq in E; subst e2; intro H; inversion H as [C];
    f_equal.
  - destruct (Pos.compare_cont Eq m1 m2) eqn:D; try discriminate.
    apply Pos.compare_eq. exact D.
  - apply Pos.compare_eq. exact C.
Qed.

Lemma select_comm (x y : float64) :
  finite x = true -> finite y = true ->
  feq x 0 = false \/ feq y 0 = false ->
  (if flt y x then x else y) = (if flt x y then y else x).
Proof.
  intros Fx Fy Z. unfold flt, SFltb. rewrite (SFcompare_antisym x y).
  destruct x as [s1|s1| |s1 m1 e1], y as [s2|s2| |s2 m2 e2]; try discriminate.
  - destruct Z as [Z|Z]; discriminate Z.
  - simpl. destruct s2; reflexivity.
  - simpl. destruct s1; reflexivity.
  - destruct (SFcompare (S754_finite s1 m1 e1) (S754_finite s2 m2 e2))
      as [[| |]|] eqn:E; simpl; try reflexivity.
    + apply SFcompare_Eq_finite in E. symmetry. exact E.
    + simpl in E. discriminate E.
Qed.

Lemma select_min_comm (x y : float64) :
  finite x = true -> finite y = true ->
  feq x 0 = false \/ feq y 0 = false ->
  (if flt x y then x else y) = (if flt y x then y else x).
Proof.
  intros Fx Fy Z. unfold flt, SFltb. rewrite (SFcompare_antisym x y).
  destruct x as [s1|s1| |s1 m1 e1], y as [s2|s2| |s2 m2 e2]; try discriminate.
  - destruct Z as [Z|Z]; discriminate Z.
  - simpl. destruct s2; reflexivity.
  - simpl. destruct s1; reflexivity.
  - destruct (SFcompare (S754_finite s1 m1 e1) (S754_finite s2 m2 e2))
      as [[| |]|] eqn:E; simpl; try reflexivity.
    + apply SFcompare_Eq_finite in E. symmetry. exact E.
    + simpl in E. discriminate E.
Qed.

Lemma Max_comm x y : math.Max x y = math.Max y x.
Proof.
  destruct x as [[|]|[|]| |[|] m1 e1], y as [[|]|[|]| |[|] m2 e2];
    try reflexivity;
    unfold math.Max; cbn [math.IsInf math.IsNaN orb];
    repeat match goal with
    | |- context [feq ?a 0 && feq ?a ?b] =>
        change (feq a 0) with false; cbn [andb]
    end;
    apply select_comm; try reflexivity; left; reflexivity.
Qed.

Lemma Min_comm x y : math.Min x y = math.Min y x.
Proof.
  destruct x as [[|]|[|]| |[|] m1 e1], y as [[|]|[|]| |[|] m2 e2];
    try reflexivity;
    unfold math.Min; cbn [math.IsInf math.IsNaN orb];
    repeat match goal with
    | |- context [feq ?a 0 && feq ?a ?b] =>
        change (feq a 0) with false; cbn [andb]
    end;
    apply select_min_comm; try reflexivity; left; reflexivity.
Qed.

Lemma Arbitrage_symmetric input :
  ArbitrageCalculator_Calculate (swap input)
  = mirror (ArbitrageCalculator_Calculate input).
Proof.
  unfold ArbitrageCalculator_Calculate, mirror, marketEfficiency.
  cbn [swap OddsA OddsB TotalStake ProbA ProbB NameA NameB Currency Method
       rMethod rTotalStake rCurrency OptionA OptionB rSummary].
  rewrite (fadd_comm (OddsB input) (OddsA input)).
  rewrite (fadd_comm (impliedProbability (OddsB input))
                     (impliedProbability (OddsA input))).
  set (stakeA := round (TotalStake input * (OddsB input - 1)
                        / (OddsA input + OddsB input - 2)) 2).
  set (stakeB := round (TotalStake input * (OddsA input - 1)
                        / (OddsA input + OddsB input - 2)) 2).
  set (profitA := stakeA * OddsA input - TotalStake input).
  set (profitB := stakeB * OddsB input - TotalStake input).
  rewrite (fadd_comm profitB profitA), (Min_comm profitB profitA),
    (Max_comm profitB profitA).
  reflexivity.
Qed.

Lemma Proportional_symmetric input :
  ProportionalCalculator_Calculate (swap input)
  = mirror (ProportionalCalculator_Calculate input).
Proof.
  unfold ProportionalCalculator_Calculate, mirror, marketEfficiency.
  cbn [swap OddsA OddsB TotalStake ProbA ProbB NameA NameB Currency Method
       rMethod rTotalStake rCurrency OptionA OptionB rSummary].
  rewrite (fadd_comm (1 / OddsB input) (1 / OddsA input)).
  rewrite (fadd_comm (impliedProbability (OddsB input))
                     (impliedProbability (OddsA input))).
  set (totalWeight := 1 / OddsA input + 1 / OddsB input).
  set (stakeA := round (TotalStake input * (1 / OddsA input / totalWeight)) 2).
  set (stakeB := round (TotalStake input * (1 / OddsB input / totalWeight)) 2).
  set (profitA := stakeA * OddsA input - TotalStake input).
  set (profitB := stakeB * OddsB input - TotalStake input).
  rewrite (fadd_comm profitB profitA), (Min_comm profitB profitA),
    (Max_comm profitB profitA).
  reflexivity.
Qed.

Lemma Kelly_symmetric input :
  KellyCalculator_Calculate (swap input)
  = mirror (KellyCalculator_Calculate input).
Proof.
  unfold KellyCalculator_Calculate, marketEfficiency.
  cbn [swap OddsA OddsB TotalStake ProbA ProbB NameA NameB Currency Method].
  rewrite (orb_comm (feq (ProbB input) 0) (feq (ProbA input) 0)).
  destruct (feq (ProbA input) 0 || feq (ProbB input) 0); [reflexivity|].
  set (rawStakeA := TotalStake input
         * math.Max 0 ((ProbA input * OddsA input - 1) / (OddsA input - 1))).
  set (rawStakeB := TotalStake input
         * math.Max 0 ((ProbB input * OddsB input - 1) / (OddsB input - 1))).
  rewrite (fadd_comm rawStakeB rawStakeA).
  rewrite (fadd_comm (ProbB input) (ProbA input)).
  rewrite (fadd_comm (impliedProbability (OddsB input))
                     (impliedProbability (OddsA input))).
  destruct (flt (TotalStake input) (rawStakeA + rawStakeB));
    unfold mirror;
    cbn [rMethod rTotalStake rCurrency OptionA OptionB rSummary];
    match goal with
    | |- context [math.Min (?sB * OddsB input - TotalStake input)
                           (?sA * OddsA input - TotalStake input)] =>
        set (profitA := sA * OddsA input - TotalStake input);
        set (profitB := sB * OddsB input - TotalStake input)
    end;
    rewrite (fadd_comm (ProbB input * profitB) (ProbA input * profitA)),
      (Min_comm profitB profitA), (Max_comm profitB profitA);
    reflexivity.
Qed.

End Symmetry.

(** X6: the calculators treat the two options alike.  Exchanging the
    options of the input (odds, probabilities and names) exchanges the two
    options of the result and leaves the summary unchanged, field for
    field and bit for bit, for each of the three strategies; an error
    stays the same error. *)
Theorem options_are_symmetric c input :
  Calculate c (swap input) = mirror (Calculate c input).
Proof.
  destruct c; cbn [Calculate].
  - apply Arbitrage_symmetric.
  - apply Kelly_symmetric.
  - apply Proportional_symmetric.
Qed.
